(** * Pregel notebooks: epidemic and platform-switch simulations

    A shallow embedding of the two vertex programs of the notebooks
    (epidemic spread, social-network platform switching), of their
    statistics collectors, and of the bulk-synchronous engine that runs
    them, followed by the properties their specification states.

    Conventions of the embedding:
    - Python integers are [Z]; Python floats that hold probabilities and
      proportions are exact rationals [Q] (the program only compares them
      and divides a count by the population size);
    - the process-wide generator behind [random.random()] is a fixed
      sequence [random : nat -> Q] of draws together with a cursor that
      every call advances by one;
    - a vertex reference is the position of the vertex in the engine's
      vertex list;
    - a raised exception is the [Raise] case of [result]. *)

From Stdlib Require Import ZArith QArith Qpower List String Bool Lia Permutation.
Import ListNotations.
Open Scope Z_scope.

(** ** Results and exceptions *)

Inductive Error : Type :=
| ValueError
| IndexError
| ZeroDivisionError
| UndeliverableMessage.

Inductive result (A : Type) : Type :=
| Ok (a : A)
| Raise (e : Error).

Arguments Ok {A} a.
Arguments Raise {A} e.

Definition bind {A B : Type} (r : result A) (k : A -> result B) : result B :=
  match r with
  | Ok a => k a
  | Raise e => Raise e
  end.

Notation "x <- r ;; k" := (bind r (fun x => k))
  (at level 61, r at next level, right associativity).
Notation "' pat <- r ;; k" := (bind r (fun x => match x with pat => k end))
  (at level 61, pat pattern, r at next level, right associativity).

(** ** Vertices and messages *)

(** A message is a triple [(v, w, msg)]: a vertex reference (the
    destination in an outgoing buffer, the source in an incoming one), a
    weight and a payload. *)
Definition Message : Type := nat * Z * string.

Definition peer (m : Message) : nat := fst (fst m).
Definition weight (m : Message) : Z := snd (fst m).
Definition payload (m : Message) : string := snd m.

(** Modelled from the spec: the [Vertex] class of the [pregel] module,
    which the notebooks subclass and whose source is not part of the
    notebooks. The fields are those of the specification's data model,
    under the names the notebooks use; [value] is an integer for the
    epidemic and a platform label for the social network. *)
Record Vertex (V : Type) : Type := mkVertex {
  id : Z;
  value : V;
  out_vertices : list nat;
  incoming_messages : list Message;
  outgoing_messages : list Message;
  active : bool;
  superstep : Z
}.

Arguments mkVertex {V}.
Arguments id {V}.
Arguments value {V}.
Arguments out_vertices {V}.
Arguments incoming_messages {V}.
Arguments outgoing_messages {V}.
Arguments active {V}.
Arguments superstep {V}.

(** Field assignments [self.f = x]. *)
Definition set_value {V : Type} (v : Vertex V) (x : V) : Vertex V :=
  mkVertex (id v) x (out_vertices v) (incoming_messages v)
           (outgoing_messages v) (active v) (superstep v).

Definition set_active {V : Type} (v : Vertex V) (b : bool) : Vertex V :=
  mkVertex (id v) (value v) (out_vertices v) (incoming_messages v)
           (outgoing_messages v) b (superstep v).

Definition set_outgoing_messages {V : Type} (v : Vertex V) (ms : list Message)
  : Vertex V :=
  mkVertex (id v) (value v) (out_vertices v) (incoming_messages v)
           ms (active v) (superstep v).

Definition set_incoming_messages {V : Type} (v : Vertex V) (ms : list Message)
  : Vertex V :=
  mkVertex (id v) (value v) (out_vertices v) ms
           (outgoing_messages v) (active v) (superstep v).

Definition set_superstep {V : Type} (v : Vertex V) (t : Z) : Vertex V :=
  mkVertex (id v) (value v) (out_vertices v) (incoming_messages v)
           (outgoing_messages v) (active v) t.

(** ** Randomness *)

(** The comparison [x < y] of two floats, as a boolean. *)
Definition Qltb (x y : Q) : bool :=
  (Qnum x * Zpos (Qden y) <? Qnum y * Zpos (Qden x))%Z.

(** [random.random()] returns a number of the half-open interval [0, 1). *)
Definition unit_interval (random : nat -> Q) : Prop :=
  forall c : nat, (0 <= random c)%Q /\ (random c < 1)%Q.

(** The outcomes of the [k] comparisons [random.random() < q] made from
    cursor [c] on. *)
Definition trials (random : nat -> Q) (q : Q) (c : nat) (k : nat) : list bool :=
  map (fun j => Qltb (random (c + j)%nat) q) (seq 0 k).

(** The law of [k] independent trials of success probability [q]: every
    vector of outcomes weighs the product of [q] or [1 - q] per trial,
    and the probability of an event is the total weight of the vectors in
    it. *)
Fixpoint outcomes (k : nat) : list (list bool) :=
  match k with
  | O => [[]]
  | S k' => map (cons true) (outcomes k') ++ map (cons false) (outcomes k')
  end.

Fixpoint likelihood (q : Q) (bs : list bool) : Q :=
  match bs with
  | [] => 1
  | b :: rest => ((if b then q else 1 - q) * likelihood q rest)%Q
  end.

Definition Qsum (l : list Q) : Q := fold_right Qplus 0%Q l.

Definition Pr (q : Q) (k : nat) (event : list bool -> bool) : Q :=
  Qsum (map (fun bs => if event bs then likelihood q bs else 0%Q) (outcomes k)).

(** At least one success among [k] trials. *)
Definition some_success (bs : list bool) : bool := existsb (fun b => b) bs.

(** ** The epidemic notebook *)

Section EpidemicNotebook.

Variable random : nat -> Q.
(** The notebook's globals: step ceiling, per-contact infection
    probability, number of initially infected vertices, incubation
    length. *)
Variables (nsteps : Z) (p : Q) (i : Z) (td : Z).

(** The loop [for v, w, msg in self.incoming_messages] of a healthy
    vertex: one draw per message, [self.value = 1] on every success. *)
Fixpoint infection_trials (msgs : list Message) (self : Vertex Z) (c : nat)
  : Vertex Z * nat :=
  match msgs with
  | [] => (self, c)
  | _ :: rest =>
      if Qltb (random c) p
      then infection_trials rest (set_value self 1) (S c)
      else infection_trials rest self (S c)
  end.

Definition EpidemicVertex_update (self : Vertex Z) (c : nat)
  : result (Vertex Z * nat) :=
  if superstep self =? 0 then
    if id self <? i then Ok (set_value self 1, c)
    else Ok (set_value self 0, c)
  else if superstep self <? nsteps then
    if value self =? -1 then Ok (set_active self false, c)
    else if value self >? 0 then
      if value self <=? td then
        Ok (set_outgoing_messages
              (set_value self (value self + 1))
              (map (fun v => (v, 1, "sneeze"%string)) (out_vertices self)),
            c)
      else Ok (set_active (set_value self (-1)) false, c)
    else Ok (infection_trials (incoming_messages self) self c)
  else Ok (set_active self false, c).

End EpidemicNotebook.

(** ** The social-network notebook *)

Section SocialNotebook.

Variable random : nat -> Q.
(** The notebook's globals: step ceiling, switch probability,
    activity. *)
Variables (nsteps : Z) (sp a : Q).

Definition switch (f m : Z) (c : nat) : bool * nat :=
  if m >? f then
    if Qltb (random c) sp then (true, S c) else (false, S c)
  else (false, c).

(** The counting loop over [self.incoming_messages], started from
    [f = 0] and [m = 0]. *)
Fixpoint count_friends (msgs : list Message) (f m : Z) : result (Z * Z) :=
  match msgs with
  | [] => Ok (f, m)
  | (_, _, msg) :: rest =>
      if (msg =? "F")%string then count_friends rest (f + 1) m
      else if (msg =? "M")%string then count_friends rest f (m + 1)
      else Raise ValueError
  end.

(** The comprehension
    [[(v,1,self.value) for v in self.out_vertices if random.random() < a]]. *)
Fixpoint contacts (outs : list nat) (val : string) (c : nat)
  : list Message * nat :=
  match outs with
  | [] => ([], c)
  | v :: rest =>
      let '(ms, c') := contacts rest val (S c) in
      if Qltb (random c) a then ((v, 1, val) :: ms, c') else (ms, c')
  end.

Definition SocialVertex_update (self : Vertex string) (c : nat)
  : result (Vertex string * nat) :=
  if superstep self <? nsteps then
    '(self1, c1) <-
      (if (value self =? "M")%string then Ok (self, c)
       else
         '(f, m) <- count_friends (incoming_messages self) 0 0 ;;
         let '(b, c') := switch f m c in
         if b then Ok (set_value self "M"%string, c') else Ok (self, c')) ;;
    let '(ms, c2) := contacts (out_vertices self1) (value self1) c1 in
    Ok (set_outgoing_messages self1 ms, c2)
  else Ok (set_active self false, c).

End SocialNotebook.

(** The number of messages of a buffer that carry a given payload, and
    the buffers whose payloads are all platform labels. *)
Definition count_payload (tag : string) (msgs : list Message) : Z :=
  Z.of_nat (List.length (filter (fun x => (payload x =? tag)%string) msgs)).

Definition label (x : string) : Prop := x = "F"%string \/ x = "M"%string.

Definition labels (msgs : list Message) : Prop :=
  Forall (fun x => label (payload x)) msgs.

(** ** Statistics collectors *)

(** A collector receives the list of vertex objects. It is a program
    over the vertex store: it may read the store, could write it, and
    may raise; the store it leaves is part of what it returns. *)
Definition Prog (V A : Type) : Type := list (Vertex V) -> result A * list (Vertex V).

Definition ret {V A : Type} (x : A) : Prog V A := fun s => (Ok x, s).

Definition seq_prog {V A B : Type} (m : Prog V A) (k : A -> Prog V B) : Prog V B :=
  fun s =>
    match m s with
    | (Ok x, s') => k x s'
    | (Raise e, s') => (Raise e, s')
    end.

Notation "x <~ m ;; k" := (seq_prog m (fun x => k))
  (at level 61, m at next level, right associativity).

(** [vertices[k]] *)
Definition vertex_at {V : Type} (k : nat) : Prog V (Vertex V) :=
  fun s =>
    match nth_error s k with
    | Some v => (Ok v, s)
    | None => (Raise IndexError, s)
    end.

(** [len(vertices)] *)
Definition len {V : Type} : Prog V Z :=
  fun s => (Ok (Z.of_nat (List.length s)), s).

(** [sum(test(v) for v in vertices)] *)
Fixpoint tally {V : Type} (test : Vertex V -> bool) (vs : list (Vertex V)) : Z :=
  match vs with
  | [] => 0
  | v :: rest => (if test v then 1 else 0) + tally test rest
  end.

Definition sum_over {V : Type} (test : Vertex V -> bool) : Prog V Z :=
  fun s => (Ok (tally test s), s).

(** [k / float(n)] *)
Definition divide {V : Type} (k n : Z) : Prog V Q :=
  fun s =>
    if n =? 0 then (Raise ZeroDivisionError, s)
    else (Ok (k # Z.to_pos n), s).

(** The proportion of the vertices that pass a test, as a collector
    computes it on a non-empty list. *)
Definition proportion {V : Type} (test : Vertex V -> bool) (vs : list (Vertex V))
  : Q :=
  tally test vs # Z.to_pos (Z.of_nat (List.length vs)).

Definition Stats : Type := Z * Q * Q.

Definition epidemic_stats : Prog Z Stats :=
  v0 <~ vertex_at 0 ;;
  let superstep := superstep v0 in
  n <~ len ;;
  alive <~ sum_over (fun v => value v >=? 0) ;;
  palive <~ divide alive n ;;
  infected <~ sum_over (fun v => value v >? 0) ;;
  pinfected <~ divide infected n ;;
  ret (superstep, palive, pinfected).

Definition social_stats : Prog string Stats :=
  v0 <~ vertex_at 0 ;;
  let superstep := superstep v0 in
  n <~ len ;;
  onF <~ sum_over (fun v => (value v =? "F")%string) ;;
  pF <~ divide onF n ;;
  onM <~ sum_over (fun v => (value v =? "M")%string) ;;
  pM <~ divide onM n ;;
  ret (superstep, pF, pM).

(** ** The engine *)

(** Modelled from the spec: the [Pregel] class of the [pregel] module,
    which the notebooks import and whose source is not part of the
    notebooks. The state of a run: the vertex list, the cursor of the
    random source, and the time series of statistics gathered so far
    ([p.data]). *)
Record Engine (V : Type) : Type := mkEngine {
  vertices : list (Vertex V);
  cursor : nat;
  data : list Stats
}.

Arguments mkEngine {V}.
Arguments vertices {V}.
Arguments cursor {V}.
Arguments data {V}.

Section Pregel.

Context {V : Type}.
(** The update rule of the vertex class and the configured collector. *)
Variable update : Vertex V -> nat -> result (Vertex V * nat).
Variable stats_fn : option (Prog V Stats).

(** Modelled from the spec: the missing engine's test of step 1 and 2,
    whether the active set is non-empty. *)
Definition check_active (vs : list (Vertex V)) : bool := existsb active vs.

(** Modelled from the spec: step 3 of the missing engine's round, the
    update rule invoked on every active vertex, in list order; an
    update that raises aborts the round. *)
Fixpoint update_active (vs : list (Vertex V)) (c : nat)
  : result (list (Vertex V) * nat) :=
  match vs with
  | [] => Ok ([], c)
  | v :: rest =>
      '(v', c') <- (if active v then update v c else Ok (v, c)) ;;
      '(rest', c'') <- update_active rest c' ;;
      Ok (v' :: rest', c'')
  end.

(** Modelled from the spec: the missing engine's test that every
    emitted message names a vertex of the run; a message to a vertex
    that does not exist is fatal. *)
Definition deliverable (vs : list (Vertex V)) : bool :=
  forallb
    (fun v => forallb (fun m => (peer m <? List.length vs)%nat)
                      (outgoing_messages v))
    vs.

(** Modelled from the spec: the messages the missing engine collects
    in step 4, each [(destination, weight, payload)] of the vertex at
    position [src] turned into [(source, weight, payload)] and kept with
    its destination, in the order of the vertices and of their
    buffers. *)
Fixpoint emitted (src : nat) (vs : list (Vertex V)) : list (nat * Message) :=
  match vs with
  | [] => []
  | v :: rest =>
      map (fun m => (peer m, (src, weight m, payload m))) (outgoing_messages v)
      ++ emitted (S src) rest
  end.

(** Modelled from the spec: the next incoming buffer of the vertex at
    position [dest], empty if nothing was sent to it. *)
Definition inbox (dest : nat) (mail : list (nat * Message)) : list Message :=
  map snd (filter (fun dm => (fst dm =? dest)%nat) mail).

(** Modelled from the spec: the missing engine's assignment of the
    next incoming buffers, vertex by vertex from position [dest] on. *)
Fixpoint deliver (dest : nat) (mail : list (nat * Message))
         (vs : list (Vertex V)) : list (Vertex V) :=
  match vs with
  | [] => []
  | v :: rest =>
      set_incoming_messages v (inbox dest mail) :: deliver (S dest) mail rest
  end.

(** Modelled from the spec: step 4 of the missing engine's round. *)
Definition redistribute_messages (vs : list (Vertex V))
  : result (list (Vertex V)) :=
  if deliverable vs then Ok (deliver 0 (emitted 0 vs) vs)
  else Raise UndeliverableMessage.

(** Modelled from the spec: step 5 of the missing engine's round. *)
Definition clear_outgoing (vs : list (Vertex V)) : list (Vertex V) :=
  map (fun v => set_outgoing_messages v []) vs.

(** Modelled from the spec: step 6 of the missing engine's round. The
    collector runs on the vertex store and its result is appended to
    the series; a collector that raises aborts the run. *)
Definition collect (vs : list (Vertex V)) (d : list Stats)
  : result (list (Vertex V) * list Stats) :=
  match stats_fn with
  | None => Ok (vs, d)
  | Some f =>
      match f vs with
      | (Ok row, vs') => Ok (vs', d ++ [row])
      | (Raise e, _) => Raise e
      end
  end.

(** Modelled from the spec: step 7 of the missing engine's round. *)
Definition advance (vs : list (Vertex V)) : list (Vertex V) :=
  map (fun v => set_superstep v (superstep v + 1)) vs.

(** Modelled from the spec: one round of the missing engine, steps 3
    to 7 of the coordinator's contract. *)
Definition superstep_round (s : Engine V) : result (Engine V) :=
  '(vs1, c1) <- update_active (vertices s) (cursor s) ;;
  vs2 <- redistribute_messages vs1 ;;
  '(vs3, d) <- collect (clear_outgoing vs2) (data s) ;;
  Ok (mkEngine (advance vs3) c1 d).

(** Modelled from the spec: the state the missing engine's loop has
    reached after at most [k] rounds; the loop stops at the first
    state without an active vertex and a round that raises aborts. *)
Fixpoint rounds (k : nat) (s : Engine V) : result (Engine V) :=
  match k with
  | O => Ok s
  | S k' =>
      if check_active (vertices s)
      then s' <- superstep_round s ;; rounds k' s'
      else Ok s
  end.

(** Modelled from the spec: the missing engine's [run], the loop
    itself. [None] means that the fuel did not suffice. *)
Fixpoint run (fuel : nat) (s : Engine V) : option (result (Engine V)) :=
  match fuel with
  | O => None
  | S fuel' =>
      if check_active (vertices s)
      then match superstep_round s with
           | Ok s' => run fuel' s'
           | Raise e => Some (Raise e)
           end
      else Some (Ok s)
  end.

End Pregel.

(** [epidemic_pregel]: a [Pregel] over the vertices with
    [stats_fn=epidemic_stats], run, and its [data]; here the whole final
    state is returned. *)
Definition epidemic_pregel (random : nat -> Q) (nsteps : Z) (p : Q) (i td : Z)
           (fuel : nat) (vs : list (Vertex Z)) (c : nat)
  : option (result (Engine Z)) :=
  run (EpidemicVertex_update random nsteps p i td) (Some epidemic_stats)
      fuel (mkEngine vs c []).

(** The same for the social network, as the last lines of
    [social_main] do. *)
Definition social_pregel (random : nat -> Q) (nsteps : Z) (sp a : Q)
           (fuel : nat) (vs : list (Vertex string)) (c : nat)
  : option (result (Engine string)) :=
  run (SocialVertex_update random nsteps sp a) (Some social_stats)
      fuel (mkEngine vs c []).

(** Vertices between two rounds of a run over [n] vertices: all at
    superstep [t], with an empty outgoing buffer and neighbours among
    the [n] vertices. At [t = 0] these are the vertices as they are
    constructed before a run. *)
Definition at_barrier {V : Type} (n : nat) (t : Z) (v : Vertex V) : Prop :=
  superstep v = t
  /\ outgoing_messages v = []
  /\ Forall (fun u => (u < n)%nat) (out_vertices v).

Definition barrier {V : Type} (t : Z) (s : Engine V) : Prop :=
  Forall (at_barrier (List.length (vertices s)) t) (vertices s).

(** An update rule that emits along the edges of the vertex only. *)
Definition emits_along_edges {V : Type} (v u : Vertex V) : Prop :=
  out_vertices u = out_vertices v
  /\ superstep u = superstep v
  /\ Forall (fun m => In (peer m) (out_vertices v) \/ In m (outgoing_messages v))
            (outgoing_messages u).

(** The two-vertex epidemic: each vertex is the other's only neighbour,
    vertex 0 starts infected and vertex 1 healthy. *)
Definition two_vertices : list (Vertex Z) :=
  [ mkVertex 0 1 [1%nat] [] [] true 0 ;
    mkVertex 1 0 [0%nat] [] [] true 0 ].

(** The two-vertex social network: each vertex is the other's only
    friend, vertex 0 starts on "M" and vertex 1 on "F". *)
Definition two_friends : list (Vertex string) :=
  [ mkVertex 0 "M"%string [1%nat] [] [] true 0 ;
    mkVertex 1 "F"%string [0%nat] [] [] true 0 ].

(** The proportion of alive vertices in a row of the series. *)
Definition pAlive (row : Stats) : Q := snd (fst row).

Definition values {V : Type} (vs : list (Vertex V)) : list V := map value vs.

(** What a round does to one vertex. [stepped update v u]: [u] is [v]
    after its update if [v] is active, and [v] itself otherwise.
    [settled vs1 u v']: [v'] is [u] after the engine's bookkeeping, when
    [vs1] are the vertices whose outgoing buffers are redistributed. *)
Definition stepped {V : Type}
           (update : Vertex V -> nat -> result (Vertex V * nat))
           (v u : Vertex V) : Prop :=
  if active v then exists c c' : nat, update v c = Ok (u, c') else u = v.

Definition sent_by {V : Type} (vs1 : list (Vertex V)) (m : Message) : Prop :=
  exists (u0 : Vertex V) (m0 : Message),
    In u0 vs1 /\ In m0 (outgoing_messages u0) /\ payload m = payload m0.

Definition settled {V : Type} (vs1 : list (Vertex V)) (u v' : Vertex V) : Prop :=
  id v' = id u
  /\ value v' = value u
  /\ out_vertices v' = out_vertices u
  /\ active v' = active u
  /\ superstep v' = superstep u + 1
  /\ outgoing_messages v' = []
  /\ Forall (sent_by vs1) (incoming_messages v').

(** A collector that leaves the store alone. *)
Definition pure_stats {V : Type} (stats_fn : option (Prog V Stats)) : Prop :=
  forall f, stats_fn = Some f -> forall vs, snd (f vs) = vs.

(** A series whose proportion of alive vertices never grows from a row
    to the next. *)
Definition nonincreasing (d : list Stats) : Prop :=
  forall (j : nat) (r1 r2 : Stats),
    nth_error d j = Some r1 -> nth_error d (S j) = Some r2 ->
    (pAlive r2 <= pAlive r1)%Q.

(** A social vertex whose value and buffered payloads are platform
    labels. *)
Definition well_labelled (v : Vertex string) : Prop :=
  label (value v)
  /\ labels (incoming_messages v)
  /\ labels (outgoing_messages v).

(** A vertex whose update does nothing but vote to halt, and a
    collector that returns a row on every non-empty vertex list. *)
Definition halting {V : Type}
           (update : Vertex V -> nat -> result (Vertex V * nat))
           (v : Vertex V) : Prop :=
  forall c : nat, update v c = Ok (set_active v false, c).

Definition total_stats {V : Type} (stats_fn : option (Prog V Stats)) : Prop :=
  forall f, stats_fn = Some f ->
  forall v vs, exists row : Stats, f (v :: vs) = (Ok row, v :: vs).

(** The epidemic vertices of a run past its first round: the superstep
    is positive, and an active vertex is healthy, infected or just
    dead. *)
Definition past_initialisation (v : Vertex Z) : Prop :=
  superstep v >= 1 /\ (active v = true -> value v >= -1).

(** The last row of a series, if any. *)
Definition last_row (d : list Stats) : option Stats :=
  nth_error d (pred (List.length d)).

(** What a run of the epidemic maintains: the series gathered so far
    never grows in its proportion of alive vertices, the current
    proportion is at most the last one recorded, and either no round has
    run yet or every vertex is past its initialisation. *)
Definition epidemic_invariant (s : Engine Z) : Prop :=
  nonincreasing (data s)
  /\ (forall r, last_row (data s) = Some r ->
       (proportion (fun v => value v >=? 0) (vertices s) <= pAlive r)%Q)
  /\ ((data s = [] /\ Forall (fun v => superstep v = 0) (vertices s))
      \/ Forall past_initialisation (vertices s)).

(** ** The random graph of the epidemic notebook *)

Definition set_out_vertices {V : Type} (v : Vertex V) (outs : list nat)
  : Vertex V :=
  mkVertex (id v) (value v) outs (incoming_messages v)
           (outgoing_messages v) (active v) (superstep v).

Section RandomGraph.

Variable random : nat -> Q.
(** The notebook's global: the probability that an edge exists. *)
Variable pn : Q.

(** The inner loop of [create_edges] for the vertex at position [j]:
    [for u in vertices: if v != u: if random.random() < pn:
    v.out_vertices.append(u)]. The vertices of the list are distinct
    objects, so [v != u] compares positions. *)
Fixpoint choose_neighbours (j : nat) (us : list nat) (outs : list nat) (c : nat)
  : list nat * nat :=
  match us with
  | [] => (outs, c)
  | u :: rest =>
      if (j =? u)%nat then choose_neighbours j rest outs c
      else if Qltb (random c) pn
           then choose_neighbours j rest (outs ++ [u]) (S c)
           else choose_neighbours j rest outs (S c)
  end.

(** The outer loop of [create_edges], from the vertex at position [j]
    on; [n] is the number of vertices of the whole list. *)
Fixpoint create_edges_from {V : Type} (n j : nat) (vs : list (Vertex V)) (c : nat)
  : list (Vertex V) * nat :=
  match vs with
  | [] => ([], c)
  | v :: rest =>
      let '(outs, c') := choose_neighbours j (seq 0 n) (out_vertices v) c in
      let '(rest', c'') := create_edges_from n (S j) rest c' in
      (set_out_vertices v outs :: rest', c'')
  end.

Definition create_edges {V : Type} (vertices : list (Vertex V)) (c : nat)
  : list (Vertex V) * nat :=
  create_edges_from (List.length vertices) 0 vertices c.

End RandomGraph.

(** The neighbours [create_edges] adds to the vertex at position [j]
    of [n]: some of the positions below [n], each at most once, in
    increasing order, and never [j] itself. *)
Definition added_neighbours (n j : nat) (added : list nat) : Prop :=
  exists f : nat -> bool, f j = false /\ added = filter f (seq 0 n).

(** The elements of a list whose trial succeeded, the trials being
    given in the order of the list. *)
Fixpoint selected {A : Type} (bs : list bool) (l : list A) : list A :=
  match bs, l with
  | b :: bs', x :: l' => if b then x :: selected bs' l' else selected bs' l'
  | _, _ => []
  end.

(** The second proportion of a row: infected vertices for the
    epidemic, vertices on "M" for the social network; and the first one
    read as the proportion of vertices on "F". *)
Definition pInfected (row : Stats) : Q := snd row.
Definition pF (row : Stats) : Q := snd (fst row).
Definition pM (row : Stats) : Q := snd row.

(** The step number of a row. *)
Definition stepNumber (row : Stats) : Z := fst (fst row).

(** A state of a run in step: every vertex is at the superstep that
    equals the number of rows gathered, and the rows are numbered from
    0 without a gap. *)
Definition in_step {V : Type} (s : Engine V) : Prop :=
  Forall (fun v => superstep v = Z.of_nat (List.length (data s))) (vertices s)
  /\ map stepNumber (data s) = map Z.of_nat (seq 0 (List.length (data s))).

(** A series in which, from a row to the next, the proportion on "F"
    never grows and the proportion on "M" never shrinks. *)
Definition drifts_to_M (d : list Stats) : Prop :=
  forall (j : nat) (r1 r2 : Stats),
    nth_error d j = Some r1 -> nth_error d (S j) = Some r2 ->
    (pF r2 <= pF r1)%Q /\ (pM r1 <= pM r2)%Q.

(** What a run of the social network maintains: the series drifts to
    "M", and its last row, if any, holds the proportions of the current
    vertices. *)
Definition social_invariant (s : Engine string) : Prop :=
  drifts_to_M (data s)
  /\ (forall r, last_row (data s) = Some r ->
       pF r = proportion (fun v => (value v =? "F")%string) (vertices s)
       /\ pM r = proportion (fun v => (value v =? "M")%string) (vertices s)).

(** An epidemic without a seed. [unseeded i v]: [v] is as constructed,
    active, and not among the [i] vertices that start infected.
    [quiet v]: [v] is healthy past its initialisation, with nothing
    received and nothing to send. [healthy_row]: everybody alive, nobody
    infected. *)
Definition unseeded (i : Z) (v : Vertex Z) : Prop :=
  superstep v = 0 /\ outgoing_messages v = [] /\ active v = true /\ i <= id v.

Definition quiet (v : Vertex Z) : Prop :=
  value v = 0 /\ incoming_messages v = [] /\ outgoing_messages v = []
  /\ 1 <= superstep v.

Definition healthy_row (row : Stats) : Prop :=
  (pAlive row == 1)%Q /\ (pInfected row == 0)%Q.

Definition unseeded_invariant (i : Z) (s : Engine Z) : Prop :=
  Forall healthy_row (data s)
  /\ ((data s = [] /\ Forall (unseeded i) (vertices s))
      \/ Forall quiet (vertices s)).

(** * Properties *)

(** ** Comparisons and the law of repeated trials *)

Lemma Qltb_lt (x y : Q) : Qltb x y = true <-> (x < y)%Q.
Proof. unfold Qltb, Qlt. apply Z.ltb_lt. Qed.

Lemma Qltb_below_one (random : nat -> Q) (c : nat) :
  unit_interval random -> Qltb (random c) 1 = true.
Proof. intros H. apply Qltb_lt. apply H. Qed.

Lemma trials_S (random : nat -> Q) (q : Q) (c k : nat) :
  trials random q c (S k) = Qltb (random c) q :: trials random q (S c) k.
Proof.
  unfold trials. cbn [seq map]. rewrite Nat.add_0_r. f_equal.
  rewrite <- seq_shift, map_map. apply map_ext. intros j.
  now rewrite Nat.add_succ_r.
Qed.

Lemma Qsum_app (l1 l2 : list Q) : (Qsum (l1 ++ l2) == Qsum l1 + Qsum l2)%Q.
Proof.
  unfold Qsum. induction l1 as [|x l1 IH]; cbn [app fold_right].
  - ring.
  - rewrite IH. ring.
Qed.

Lemma Qsum_map_ext {A : Type} (g h : A -> Q) (l : list A) :
  (forall x, g x == h x)%Q -> (Qsum (map g l) == Qsum (map h l))%Q.
Proof.
  intros E. unfold Qsum. induction l as [|x l IH]; cbn [map fold_right].
  - reflexivity.
  - now rewrite IH, E.
Qed.

Lemma Qsum_map_scale {A : Type} (r : Q) (g : A -> Q) (l : list A) :
  (Qsum (map (fun x => r * g x) l) == r * Qsum (map g l))%Q.
Proof.
  unfold Qsum. induction l as [|x l IH]; cbn [map fold_right].
  - ring.
  - rewrite IH. ring.
Qed.

Lemma Pr_S (q : Q) (k : nat) (event : list bool -> bool) :
  (Pr q (S k) event ==
   q * Pr q k (fun bs => event (true :: bs))
   + (1 - q) * Pr q k (fun bs => event (false :: bs)))%Q.
Proof.
  unfold Pr. cbn [outcomes]. rewrite map_app, Qsum_app, !map_map.
  rewrite <- !Qsum_map_scale.
  apply Qplus_comp; apply Qsum_map_ext; intros bs; cbn [likelihood];
    destruct (event _); ring.
Qed.

Lemma Pr_ext (q : Q) (k : nat) (e1 e2 : list bool -> bool) :
  (forall bs, e1 bs = e2 bs) -> (Pr q k e1 == Pr q k e2)%Q.
Proof.
  intros E. unfold Pr. apply Qsum_map_ext. intros bs. now rewrite E.
Qed.

(** The weights of all outcome vectors add up to one. *)
Lemma Pr_certain (q : Q) (k : nat) : (Pr q k (fun _ => true) == 1)%Q.
Proof.
  induction k as [|k IH].
  - unfold Pr, Qsum. cbn [outcomes map fold_right likelihood]. ring.
  - rewrite Pr_S, IH. ring.
Qed.

Lemma Pr_impossible (q : Q) (k : nat) : (Pr q k (fun _ => false) == 0)%Q.
Proof.
  induction k as [|k IH].
  - unfold Pr, Qsum. cbn [outcomes map fold_right likelihood]. ring.
  - rewrite Pr_S, IH. ring.
Qed.

Lemma Qpower_nat_S (q : Q) (k : nat) :
  (q ^ Z.of_nat (S k) == q * q ^ Z.of_nat k)%Q.
Proof.
  rewrite Nat2Z.inj_succ. unfold Z.succ.
  rewrite Qpower_plus' by lia. cbn. ring.
Qed.

Lemma Pr_some_success (q : Q) (k : nat) :
  (Pr q k some_success == 1 - (1 - q) ^ Z.of_nat k)%Q.
Proof.
  induction k as [|k IH].
  - unfold Pr, Qsum.
    cbn [outcomes map fold_right likelihood some_success existsb].
    change ((1 - q) ^ Z.of_nat 0)%Q with 1%Q. ring.
  - rewrite Pr_S, Qpower_nat_S.
    rewrite (Pr_ext q k (fun bs => some_success (true :: bs)) (fun _ => true))
      by reflexivity.
    rewrite (Pr_ext q k (fun bs => some_success (false :: bs)) some_success)
      by reflexivity.
    rewrite Pr_certain, IH. ring.
Qed.

Lemma Pr_single (q : Q) : (Pr q 1 (hd false) == q)%Q.
Proof. unfold Pr, Qsum. cbn [outcomes map fold_right likelihood hd app]. ring. Qed.

(** ** The epidemic update rule *)

Lemma infection_trials_spec random p msgs : forall (self : Vertex Z) (c : nat),
  infection_trials random p msgs self c =
  (if some_success (trials random p c (List.length msgs))
   then set_value self 1 else self,
   (c + List.length msgs)%nat).
Proof.
  induction msgs as [|x rest IH]; intros self c.
  - cbn. now rewrite Nat.add_0_r.
  - cbn [infection_trials List.length]. rewrite trials_S, Nat.add_succ_r.
    destruct (Qltb (random c) p); rewrite IH; unfold some_success;
      cbn [existsb orb].
    + now destruct (existsb (fun b : bool => b) _).
    + reflexivity.
Qed.

(** C1. A healthy vertex updated at a superstep [t] with
    [1 <= t < nsteps] makes one draw per incoming message, each compared
    with [p]; it ends the update with value 1 exactly when at least one
    of these [k] trials succeeds, and with value 0 otherwise; nothing
    else of the vertex changes. Under the law of [k] independent trials
    of probability [p] this event has probability [1 - (1 - p)^k]. *)
Theorem healthy_vertex_one_trial_per_message :
  forall random nsteps p i td (self : Vertex Z) (c : nat),
    value self = 0 ->
    1 <= superstep self < nsteps ->
    let k := List.length (incoming_messages self) in
    let infected := some_success (trials random p c k) in
    EpidemicVertex_update random nsteps p i td self c
    = Ok (if infected then set_value self 1 else self, (c + k)%nat)
    /\ (exists self' : Vertex Z,
          EpidemicVertex_update random nsteps p i td self c
          = Ok (self', (c + k)%nat)
          /\ (value self' = 1 <-> infected = true)
          /\ (value self' = 0 <-> infected = false))
    /\ (Pr p k some_success == 1 - (1 - p) ^ Z.of_nat k)%Q.
Proof.
  intros random nsteps p i td self c Hv Ht k infected.
  assert (E : EpidemicVertex_update random nsteps p i td self c
              = Ok (if infected then set_value self 1 else self, (c + k)%nat)).
  { unfold EpidemicVertex_update.
    destruct (Z.eqb_spec (superstep self) 0) as [E0|_]; [lia|].
    destruct (Z.ltb_spec (superstep self) nsteps) as [_|L]; [|lia].
    rewrite Hv. cbn [Z.eqb Z.gtb Z.compare].
    now rewrite infection_trials_spec. }
  split; [exact E|]. split; [|apply Pr_some_success].
  eexists. split; [exact E|].
  destruct infected; cbn [value set_value]; rewrite ?Hv;
    split; split; intros; try reflexivity; discriminate.
Qed.

Lemma healthy_vertex_one_trial_per_message_witness :
  let self := mkVertex 7 0 [] [(0%nat, 1, "sneeze"%string);
                              (3%nat, 1, "sneeze"%string)] [] true 1 in
  let random := fun c : nat => match c with O => 3 # 4 | _ => 1 # 4 end in
  value self = 0
  /\ 1 <= superstep self < 50
  /\ EpidemicVertex_update random 50 (1 # 2) 1 1 self 0
     = Ok (set_value self 1, 2%nat).
Proof.
  intros self random.
  split; [reflexivity|]. split; [cbn; lia|].
  exact (proj1 (healthy_vertex_one_trial_per_message
                  random 50 (1 # 2) 1 1 self 0%nat eq_refl
                  (conj (Z.le_refl 1) eq_refl))).
Defined.

(** C2, as the specification words it, fails: an infected vertex within
    its incubation window does not decide by a draw, neighbour by
    neighbour, whether to emit. With [p = 0] no draw is below [p], yet
    the neighbour is sent the message. *)
Lemma infected_vertex_emission_is_not_drawn :
  ~ (forall random nsteps p i td (self : Vertex Z) (c : nat),
       unit_interval random ->
       0 < value self <= td ->
       1 <= superstep self < nsteps ->
       exists (self' : Vertex Z) (c' : nat),
         EpidemicVertex_update random nsteps p i td self c = Ok (self', c')
         /\ 0 < value self'
         /\ forall (j : nat) (v : nat),
              nth_error (out_vertices self) j = Some v ->
              exists d : nat,
                In (v, 1, "sneeze"%string) (outgoing_messages self')
                <-> Qltb (random d) p = true).
Proof.
  intros H.
  destruct (H (fun _ => 0%Q) 50 0%Q 1 1
              (mkVertex 0 1 [1%nat] [] [] true 1) 0%nat)
    as (self' & c' & E & _ & D).
  - intros c. split; [apply Qle_refl | reflexivity].
  - cbn. lia.
  - cbn. lia.
  - cbn in E. injection E as <- <-.
    destruct (D 0%nat 1%nat eq_refl) as [d [D1 _]].
    cbn in D1. discriminate D1. now left.
Qed.

(** C2, amended. An infected vertex within its incubation window,
    updated at a superstep [t] with [1 <= t < nsteps], stays infected
    (its value grows by one) and emits one infection message to every
    outgoing neighbour, without a draw: the cursor of the random source
    does not move, and nothing else of the vertex changes. *)
Theorem infected_vertex_emits_to_every_neighbour :
  forall random nsteps p i td (self : Vertex Z) (c : nat),
    0 < value self <= td ->
    1 <= superstep self < nsteps ->
    exists self' : Vertex Z,
      EpidemicVertex_update random nsteps p i td self c = Ok (self', c)
      /\ value self' = value self + 1
      /\ 0 < value self'
      /\ outgoing_messages self'
         = map (fun v => (v, 1, "sneeze"%string)) (out_vertices self)
      /\ active self' = active self
      /\ id self' = id self
      /\ out_vertices self' = out_vertices self
      /\ incoming_messages self' = incoming_messages self
      /\ superstep self' = superstep self.
Proof.
  intros random nsteps p i td self c Hv Ht.
  eexists. split.
  - unfold EpidemicVertex_update.
    destruct (Z.eqb_spec (superstep self) 0) as [E0|_]; [lia|].
    destruct (Z.ltb_spec (superstep self) nsteps) as [_|L]; [|lia].
    destruct (Z.eqb_spec (value self) (-1)) as [E1|_]; [lia|].
    destruct (Z.gtb_spec (value self) 0) as [_|L]; [|lia].
    destruct (Z.leb_spec (value self) td) as [_|L]; [|lia].
    reflexivity.
  - cbn. repeat split; try reflexivity. lia.
Qed.

Lemma infected_vertex_emits_to_every_neighbour_witness :
  let self := mkVertex 0 1 [1%nat; 2%nat] [] [] true 1 in
  0 < value self <= 1
  /\ 1 <= superstep self < 50
  /\ exists self' : Vertex Z,
       EpidemicVertex_update (fun _ => 0%Q) 50 0%Q 1 1 self 5 = Ok (self', 5%nat)
       /\ value self' = value self + 1
       /\ 0 < value self'
       /\ outgoing_messages self'
          = map (fun v => (v, 1, "sneeze"%string)) (out_vertices self)
       /\ active self' = active self
       /\ id self' = id self
       /\ out_vertices self' = out_vertices self
       /\ incoming_messages self' = incoming_messages self
       /\ superstep self' = superstep self.
Proof.
  intros self.
  assert (Hv : 0 < value self <= 1) by (cbn; lia).
  assert (Ht : 1 <= superstep self < 50) by (cbn; lia).
  split; [exact Hv|]. split; [exact Ht|].
  exact (infected_vertex_emits_to_every_neighbour
           (fun _ => 0%Q) 50 0%Q 1 1 self 5%nat Hv Ht).
Defined.

(** ** The platform-switch update rule *)

Lemma count_friends_labels msgs : forall f m : Z,
  labels msgs ->
  count_friends msgs f m
  = Ok (f + count_payload "F" msgs, m + count_payload "M" msgs).
Proof.
  induction msgs as [|[[v w] msg] rest IH]; intros f m L.
  - unfold count_payload. cbn. now rewrite !Z.add_0_r.
  - inversion L as [|? ? Hx L']; subst. cbn [count_friends].
    unfold count_payload in *. cbn [filter payload snd].
    destruct Hx as [Hx|Hx]; cbn [payload snd] in Hx; subst msg;
      cbn [String.eqb Ascii.eqb Bool.eqb andb List.length];
      rewrite IH by assumption; cbn [List.length];
      rewrite ?Nat2Z.inj_succ; do 2 f_equal; lia.
Qed.

Lemma switch_only_on_majority random sp (f m : Z) (c : nat) :
  fst (switch random sp f m c) = true -> m > f.
Proof.
  unfold switch. destruct (Z.gtb_spec m f) as [G|G]; [lia|].
  cbn. discriminate.
Qed.

Lemma switch_decided_by_one_draw random sp (f m : Z) (c : nat) :
  switch random sp f m c
  = if m >? f then (Qltb (random c) sp, S c) else (false, c).
Proof. unfold switch. destruct (m >? f); [now destruct (Qltb _ _)|reflexivity]. Qed.

Lemma label_dec (x : string) : {label x} + {~ label x}.
Proof.
  unfold label. destruct (string_dec x "F") as [->|NF]; [left; now left|].
  destruct (string_dec x "M") as [->|NM]; [left; now right|].
  right. intros [H|H]; contradiction.
Qed.

Lemma count_friends_raises (msgs : list Message) : forall f m : Z,
  ~ labels msgs -> count_friends msgs f m = Raise ValueError.
Proof.
  induction msgs as [|[[v w] msg] rest IH]; intros f m NL.
  - elim NL. constructor.
  - cbn [count_friends].
    destruct (String.eqb_spec msg "F") as [->|NF].
    + apply IH. intros L. apply NL. constructor; [now left | exact L].
    + destruct (String.eqb_spec msg "M") as [->|NM]; [|reflexivity].
      apply IH. intros L. apply NL. constructor; [now right | exact L].
Qed.

Lemma labels_dec (msgs : list Message) : {labels msgs} + {~ labels msgs}.
Proof.
  unfold labels. apply Forall_dec. intros x. apply label_dec.
Qed.

(** C3, as the specification words it, fails: it promises the switch
    from the counts alone, but a payload that is neither "F" nor "M"
    makes the update raise. With the inbox ["M"; "sneeze"] the count of
    "M" exceeds that of "F" and the draw is below [sp], yet the vertex
    does not switch: the update raises [ValueError]. *)
Lemma unswitched_vertex_with_foreign_payload_does_not_switch :
  ~ (forall random nsteps sp a (self : Vertex string) (c : nat),
       value self = "F"%string ->
       superstep self < nsteps ->
       let f := count_payload "F" (incoming_messages self) in
       let m := count_payload "M" (incoming_messages self) in
       exists (self' : Vertex string) (c' : nat),
         SocialVertex_update random nsteps sp a self c = Ok (self', c')
         /\ (m > f -> (value self' = "M"%string <-> Qltb (random c) sp = true))
         /\ (m <= f -> value self' = "F"%string)).
Proof.
  intros H.
  destruct (H (fun _ => 0%Q) 30 1%Q 1%Q
              (mkVertex 1 "F"%string [0%nat]
                        [(0%nat, 1, "M"%string); (0%nat, 1, "sneeze"%string)]
                        [] true 1)
              0%nat eq_refl eq_refl) as (self' & c' & E & _).
  cbn in E. discriminate E.
Qed.

(** C3, amended. A vertex on "F" updated at a superstep below [nsteps],
    whose incoming messages carry [f] times the payload "F" and [m]
    times the payload "M": if every incoming payload is "F" or "M", it
    ends the update on "M" exactly when [switch f m] returns [True], and
    on "F" otherwise; if some incoming payload is neither, the update
    raises [ValueError] and nothing is switched, whatever [f] and [m].
    [switch f m] returns [True] only if [m > f]; if [m <= f] it makes no
    draw and returns [False] (probability 0); if [m > f] it makes one
    draw and returns whether the draw is below [sp] (probability
    [sp]). *)
Theorem unswitched_vertex_switches_on_majority :
  forall random nsteps sp a (self : Vertex string) (c : nat),
    value self = "F"%string ->
    superstep self < nsteps ->
    let f := count_payload "F" (incoming_messages self) in
    let m := count_payload "M" (incoming_messages self) in
    let switched := fst (switch random sp f m c) in
    (labels (incoming_messages self) ->
     exists (self' : Vertex string) (c' : nat),
       SocialVertex_update random nsteps sp a self c = Ok (self', c')
       /\ value self' = (if switched then "M" else "F")%string)
    /\ (~ labels (incoming_messages self) ->
        SocialVertex_update random nsteps sp a self c = Raise ValueError)
    /\ (switched = true -> m > f)
    /\ (m <= f ->
        switch random sp f m c = (false, c)
        /\ (Pr sp 0 (fun _ => false) == 0)%Q)
    /\ (m > f ->
        switch random sp f m c = (hd false (trials random sp c 1), S c)
        /\ (Pr sp 1 (hd false) == sp)%Q).
Proof.
  intros random nsteps sp a self c Hv Ht f m switched.
  split; [|split; [|split; [|split]]].
  - intros L. unfold SocialVertex_update.
    destruct (Z.ltb_spec (superstep self) nsteps) as [_|G]; [|lia].
    rewrite Hv. cbn [String.eqb Ascii.eqb Bool.eqb andb].
    rewrite (count_friends_labels _ 0 0 L). cbn [bind Z.add].
    fold f m. subst switched.
    destruct (switch random sp f m c) as [[|] c1]; cbn [fst bind].
    + destruct (contacts random a _ _ c1) as [ms c2]. now eexists _, _.
    + destruct (contacts random a _ _ c1) as [ms c2].
      eexists _, _. split; [reflexivity|]. exact Hv.
  - intros NL. unfold SocialVertex_update.
    destruct (Z.ltb_spec (superstep self) nsteps) as [_|G]; [|lia].
    rewrite Hv. cbn [String.eqb Ascii.eqb Bool.eqb andb].
    now rewrite (count_friends_raises _ 0 0 NL).
  - apply switch_only_on_majority.
  - intros G. rewrite switch_decided_by_one_draw.
    destruct (Z.gtb_spec m f) as [G'|_]; [lia|].
    split; [reflexivity|apply Pr_impossible].
  - intros G. rewrite switch_decided_by_one_draw.
    destruct (Z.gtb_spec m f) as [_|G']; [|lia].
    split; [|apply Pr_single].
    unfold trials. cbn [seq map hd]. now rewrite Nat.add_0_r.
Qed.

Lemma unswitched_vertex_switches_on_majority_witness :
  let self := mkVertex 1 "F"%string [0%nat]
                       [(0%nat, 1, "M"%string)] [] true 1 in
  let stray := mkVertex 1 "F"%string [0%nat]
                        [(0%nat, 1, "M"%string); (0%nat, 1, "sneeze"%string)]
                        [] true 1 in
  value self = "F"%string
  /\ superstep self < 30
  /\ labels (incoming_messages self)
  /\ ~ labels (incoming_messages stray)
  /\ (exists (self' : Vertex string) (c' : nat),
        SocialVertex_update (fun _ => 1 # 2) 30 (9 # 10) (4 # 10) self 0
        = Ok (self', c')
        /\ value self' = "M"%string)
  /\ SocialVertex_update (fun _ => 1 # 2) 30 (9 # 10) (4 # 10) stray 0
     = Raise ValueError.
Proof.
  intros self stray.
  assert (L : labels (incoming_messages self)).
  { constructor; [right; reflexivity | constructor]. }
  assert (NL : ~ labels (incoming_messages stray)).
  { intros K. inversion K as [|? ? _ K']; subst.
    inversion K' as [|? ? [H|H] _]; discriminate H. }
  split; [reflexivity|]. split; [reflexivity|]. split; [exact L|].
  split; [exact NL|]. split.
  - exact (proj1 (unswitched_vertex_switches_on_majority
                    (fun _ => 1 # 2) 30 (9 # 10) (4 # 10) self 0%nat
                    eq_refl eq_refl) L).
  - exact (proj1 (proj2 (unswitched_vertex_switches_on_majority
                           (fun _ => 1 # 2) 30 (9 # 10) (4 # 10) stray 0%nat
                           eq_refl eq_refl)) NL).
Defined.

(** ** The statistics collectors *)

Lemma epidemic_stats_eval (vs : list (Vertex Z)) :
  epidemic_stats vs =
  match vs with
  | [] => (Raise IndexError, vs)
  | v0 :: _ =>
      (Ok (superstep v0,
           proportion (fun v => value v >=? 0) vs,
           proportion (fun v => value v >? 0) vs), vs)
  end.
Proof.
  destruct vs as [|v0 rest]; [reflexivity|].
  unfold epidemic_stats, seq_prog, vertex_at, len, sum_over, divide, ret.
  cbn [nth_error].
  destruct (Z.eqb_spec (Z.of_nat (List.length (v0 :: rest))) 0) as [E|_].
  - cbn [List.length] in E. lia.
  - reflexivity.
Qed.

Lemma social_stats_eval (vs : list (Vertex string)) :
  social_stats vs =
  match vs with
  | [] => (Raise IndexError, vs)
  | v0 :: _ =>
      (Ok (superstep v0,
           proportion (fun v => (value v =? "F")%string) vs,
           proportion (fun v => (value v =? "M")%string) vs), vs)
  end.
Proof.
  destruct vs as [|v0 rest]; [reflexivity|].
  unfold social_stats, seq_prog, vertex_at, len, sum_over, divide, ret.
  cbn [nth_error].
  destruct (Z.eqb_spec (Z.of_nat (List.length (v0 :: rest))) 0) as [E|_].
  - cbn [List.length] in E. lia.
  - reflexivity.
Qed.

Lemma epidemic_stats_pure (vs : list (Vertex Z)) : snd (epidemic_stats vs) = vs.
Proof. rewrite epidemic_stats_eval. now destruct vs. Qed.

Lemma social_stats_pure (vs : list (Vertex string)) : snd (social_stats vs) = vs.
Proof. rewrite social_stats_eval. now destruct vs. Qed.

Lemma pure_epidemic_stats : pure_stats (Some epidemic_stats).
Proof. intros f Ef vs. injection Ef as <-. apply epidemic_stats_pure. Qed.

Lemma pure_social_stats : pure_stats (Some social_stats).
Proof. intros f Ef vs. injection Ef as <-. apply social_stats_pure. Qed.

Lemma tally_values {V : Type} (g : V -> bool) (vs : list (Vertex V)) :
  forall ws : list (Vertex V),
    values vs = values ws ->
    tally (fun v => g (value v)) vs = tally (fun v => g (value v)) ws.
Proof.
  unfold values.
  induction vs as [|v vs IH]; intros [|w ws] E; try discriminate E.
  - reflexivity.
  - cbn in E. injection E as E1 E2. cbn [tally].
    now rewrite E1, (IH ws E2).
Qed.

Lemma proportion_values {V : Type} (g : V -> bool) (vs ws : list (Vertex V)) :
  values vs = values ws ->
  proportion (fun v => g (value v)) vs = proportion (fun v => g (value v)) ws.
Proof.
  intros E. unfold proportion. rewrite (tally_values g vs ws E).
  assert (L : List.length vs = List.length ws).
  { unfold values in E. now rewrite <- (length_map value vs), E, length_map. }
  now rewrite L.
Qed.

(** C8. The collectors are pure: each leaves the vertex store as it
    found it, field by field, whether it returns or raises; and what it
    returns is the same on any two vertex lists that agree on the
    superstep of the first vertex and on the values of all vertices. *)
Theorem stats_collectors_are_pure :
  (forall vs : list (Vertex Z), snd (epidemic_stats vs) = vs)
  /\ (forall vs : list (Vertex string), snd (social_stats vs) = vs)
  /\ (forall vs ws : list (Vertex Z),
        option_map superstep (hd_error vs) = option_map superstep (hd_error ws) ->
        values vs = values ws ->
        fst (epidemic_stats vs) = fst (epidemic_stats ws))
  /\ (forall vs ws : list (Vertex string),
        option_map superstep (hd_error vs) = option_map superstep (hd_error ws) ->
        values vs = values ws ->
        fst (social_stats vs) = fst (social_stats ws)).
Proof.
  split; [exact epidemic_stats_pure|]. split; [exact social_stats_pure|].
  split.
  - intros vs ws Hs Hv. rewrite !epidemic_stats_eval.
    destruct vs as [|v vs], ws as [|w ws]; try discriminate Hv; [reflexivity|].
    cbn in Hs. injection Hs as Hs. cbn [fst]. rewrite Hs.
    rewrite (proportion_values (fun x => x >=? 0) _ _ Hv).
    now rewrite (proportion_values (fun x => x >? 0) _ _ Hv).
  - intros vs ws Hs Hv. rewrite !social_stats_eval.
    destruct vs as [|v vs], ws as [|w ws]; try discriminate Hv; [reflexivity|].
    cbn in Hs. injection Hs as Hs. cbn [fst]. rewrite Hs.
    rewrite (proportion_values (fun x => (x =? "F")%string) _ _ Hv).
    now rewrite (proportion_values (fun x => (x =? "M")%string) _ _ Hv).
Qed.

Lemma stats_collectors_are_pure_witness :
  let vs := [ mkVertex 0 1 [1%nat] [] [(1%nat, 1, "sneeze"%string)] true 3 ;
              mkVertex 1 (-1) [0%nat] [] [] false 3 ] in
  let ws := [ mkVertex 5 1 [] [(1%nat, 1, "sneeze"%string)] [] false 3 ;
              mkVertex 6 (-1) [] [] [] true 9 ] in
  option_map superstep (hd_error vs) = option_map superstep (hd_error ws)
  /\ values vs = values ws
  /\ fst (epidemic_stats vs) = fst (epidemic_stats ws)
  /\ snd (epidemic_stats vs) = vs.
Proof.
  intros vs ws.
  split; [reflexivity|]. split; [reflexivity|]. split.
  - exact (proj1 (proj2 (proj2 stats_collectors_are_pure)) vs ws eq_refl eq_refl).
  - exact (proj1 stats_collectors_are_pure vs).
Defined.

(** C10. On a non-empty vertex list either collector returns a triple:
    the superstep of the first vertex and two proportions of the
    population. On the empty list either raises [IndexError], at
    [vertices[0]]. *)
Theorem stats_collectors_need_a_vertex :
  (forall (v0 : Vertex Z) (rest : list (Vertex Z)),
      epidemic_stats (v0 :: rest)
      = (Ok (superstep v0,
             proportion (fun v => value v >=? 0) (v0 :: rest),
             proportion (fun v => value v >? 0) (v0 :: rest)),
         v0 :: rest))
  /\ (forall (v0 : Vertex string) (rest : list (Vertex string)),
        social_stats (v0 :: rest)
        = (Ok (superstep v0,
               proportion (fun v => (value v =? "F")%string) (v0 :: rest),
               proportion (fun v => (value v =? "M")%string) (v0 :: rest)),
           v0 :: rest))
  /\ epidemic_stats [] = (Raise IndexError, [])
  /\ social_stats [] = (Raise IndexError, []).
Proof.
  split; [|split; [|split]].
  - intros v0 rest. now rewrite epidemic_stats_eval.
  - intros v0 rest. now rewrite social_stats_eval.
  - reflexivity.
  - reflexivity.
Qed.

(** ** Lists related position by position *)

Lemma Forall2_same {A : Type} (R : A -> A -> Prop) (l : list A) :
  (forall x, R x x) -> Forall2 R l l.
Proof. intros H. induction l; constructor; auto. Qed.

Lemma Forall2_compose {A B C : Type} (R1 : A -> B -> Prop) (R2 : B -> C -> Prop)
      (R : A -> C -> Prop) :
  (forall x y z, R1 x y -> R2 y z -> R x z) ->
  forall l1 l2 l3, Forall2 R1 l1 l2 -> Forall2 R2 l2 l3 -> Forall2 R l1 l3.
Proof.
  intros H l1 l2 l3 H1. revert l3.
  induction H1 as [|x y l1 l2 Hxy H1 IH]; intros l3 H2; inversion H2; subst;
    constructor; eauto.
Qed.

Lemma Forall2_weaken {A B : Type} (R1 R2 : A -> B -> Prop) (l1 : list A)
      (l2 : list B) :
  (forall x y, In x l1 -> In y l2 -> R1 x y -> R2 x y) ->
  Forall2 R1 l1 l2 -> Forall2 R2 l1 l2.
Proof.
  intros H H1. induction H1 as [|x y l1 l2 Hxy H1 IH]; constructor.
  - apply H; cbn; auto.
  - apply IH. intros; apply H; cbn; auto.
Qed.

Lemma Forall2_transport {A B : Type} (P : A -> Prop) (Q : B -> Prop)
      (R : A -> B -> Prop) (l1 : list A) (l2 : list B) :
  (forall x y, P x -> R x y -> Q y) ->
  Forall P l1 -> Forall2 R l1 l2 -> Forall Q l2.
Proof.
  intros H HP H2. induction H2 as [|x y l1 l2 Hxy H2 IH]; constructor;
    inversion HP; subst; eauto.
Qed.

Lemma Forall2_with {A B : Type} (P : A -> Prop) (R : A -> B -> Prop)
      (l1 : list A) (l2 : list B) :
  Forall P l1 -> Forall2 R l1 l2 -> Forall2 (fun x y => P x /\ R x y) l1 l2.
Proof.
  intros HP H2. induction H2 as [|x y l1 l2 Hxy H2 IH]; constructor;
    inversion HP; subst; auto.
Qed.

Lemma Forall2_nth_error {A B : Type} (R : A -> B -> Prop) (l1 : list A)
      (l2 : list B) :
  Forall2 R l1 l2 ->
  forall (j : nat) (x : A),
    nth_error l1 j = Some x -> exists y, nth_error l2 j = Some y /\ R x y.
Proof.
  induction 1 as [|x0 y0 l1 l2 Hxy H2 IH]; intros [|j] x E; cbn in *;
    try discriminate.
  - injection E as <-. eauto.
  - eauto.
Qed.

(** ** The engine's round *)

Section PregelFacts.

Context {V : Type}.
Variable update : Vertex V -> nat -> result (Vertex V * nat).
Variable stats_fn : option (Prog V Stats).
Hypothesis stats_pure : pure_stats stats_fn.

Lemma update_active_stepped : forall (vs vs1 : list (Vertex V)) (c c1 : nat),
  update_active update vs c = Ok (vs1, c1) ->
  Forall2 (stepped update) vs vs1.
Proof.
  induction vs as [|v vs IH]; intros vs1 c c1 E; cbn in E.
  - injection E as <- <-. constructor.
  - case_eq (active v); intros Ha; rewrite Ha in E.
    + destruct (update v c) as [[u c']|e] eqn:Eu; cbn in E; [|discriminate].
      destruct (update_active update vs c') as [[rest c'']|e] eqn:Er;
        cbn in E; [|discriminate].
      injection E as <- <-. constructor; [|eauto].
      unfold stepped. rewrite Ha. eauto.
    + cbn in E.
      destruct (update_active update vs c) as [[rest c'']|e] eqn:Er;
        cbn in E; [|discriminate].
      injection E as <- <-. constructor; [|eauto].
      unfold stepped. now rewrite Ha.
Qed.

Lemma emitted_sent_by : forall (vs : list (Vertex V)) (src : nat) (dm : nat * Message),
  In dm (emitted src vs) -> sent_by vs (snd dm).
Proof.
  induction vs as [|v vs IH]; intros src dm H; cbn in H; [contradiction|].
  apply in_app_or in H. destruct H as [H|H].
  - apply in_map_iff in H. destruct H as (m0 & <- & H).
    exists v, m0. cbn. auto.
  - destruct (IH _ _ H) as (u0 & m0 & H1 & H2 & H3).
    exists u0, m0. cbn. auto.
Qed.

Lemma inbox_sent_by (vs : list (Vertex V)) (src dest : nat) :
  Forall (sent_by vs) (inbox dest (emitted src vs)).
Proof.
  apply Forall_forall. intros m H. unfold inbox in H.
  apply in_map_iff in H. destruct H as (dm & <- & H).
  apply filter_In in H. destruct H as [H _].
  exact (emitted_sent_by _ _ _ H).
Qed.

Lemma deliver_settles (mail : list (nat * Message)) (P : Message -> Prop) :
  (forall dest, Forall P (inbox dest mail)) ->
  forall (vs : list (Vertex V)) (dest : nat),
    Forall2 (fun u w => exists ms, w = set_incoming_messages u ms /\ Forall P ms)
            vs (deliver dest mail vs).
Proof.
  intros HP. induction vs as [|v vs IH]; intros dest; cbn; constructor; eauto.
Qed.

Lemma bookkeeping_settles (vs1 us ws : list (Vertex V)) :
  Forall2 (fun u w => exists ms,
               w = set_incoming_messages u ms /\ Forall (sent_by vs1) ms)
          us ws ->
  Forall2 (settled vs1) us (advance (clear_outgoing ws)).
Proof.
  unfold advance, clear_outgoing. rewrite map_map.
  induction 1 as [|u w us ws (ms & -> & Hms) D IH]; cbn [map];
    constructor; [|exact IH].
  unfold settled. cbn. auto 10.
Qed.

Lemma collect_pure (vs vs3 : list (Vertex V)) (d d' : list Stats) :
  collect stats_fn vs d = Ok (vs3, d') ->
  vs3 = vs
  /\ match stats_fn with
     | None => d' = d
     | Some f => exists row, f vs = (Ok row, vs) /\ d' = d ++ [row]
     end.
Proof.
  unfold collect. intros E. pose proof stats_pure as Hp. unfold pure_stats in Hp.
  destruct stats_fn as [f|].
  - specialize (Hp f eq_refl vs).
    destruct (f vs) as [[row|e] vs'] eqn:Ef; [|discriminate].
    cbn in Hp. subst vs'. injection E as <- <-. eauto.
  - injection E as <- <-. auto.
Qed.

(** One round, vertex by vertex. *)
Lemma superstep_round_inv (s s' : Engine V) :
  superstep_round update stats_fn s = Ok s' ->
  exists vs1 : list (Vertex V),
    Forall2 (stepped update) (vertices s) vs1
    /\ Forall2 (settled vs1) vs1 (vertices s')
    /\ match stats_fn with
       | None => data s' = data s
       | Some f =>
           exists (vs3 : list (Vertex V)) (row : Stats),
             f vs3 = (Ok row, vs3)
             /\ vertices s' = advance vs3
             /\ data s' = data s ++ [row]
       end.
Proof.
  unfold superstep_round. intros E.
  destruct (update_active update (vertices s) (cursor s)) as [[vs1 c1]|e] eqn:E1;
    cbn in E; [|discriminate].
  unfold redistribute_messages in E.
  destruct (deliverable vs1); cbn in E; [|discriminate].
  destruct (collect stats_fn _ (data s)) as [[vs3 d]|e] eqn:E3;
    cbn in E; [|discriminate].
  injection E as <-. cbn [vertices data].
  apply collect_pure in E3. destruct E3 as [-> E3].
  exists vs1. split; [exact (update_active_stepped _ _ _ _ E1)|]. split.
  - apply bookkeeping_settles.
    exact (deliver_settles (emitted 0 vs1) (sent_by vs1)
             (inbox_sent_by vs1 0%nat) vs1 0%nat).
  - destruct stats_fn as [f|]; [|exact E3].
    destruct E3 as (row & Ef & ->). eauto.
Qed.

Lemma rounds_halted (k : nat) (s : Engine V) :
  check_active (vertices s) = false -> rounds update stats_fn k s = Ok s.
Proof. intros H. destruct k; cbn; [reflexivity | now rewrite H]. Qed.

Lemma rounds_add (k d : nat) : forall s : Engine V,
  rounds update stats_fn (k + d) s
  = (s1 <- rounds update stats_fn k s ;; rounds update stats_fn d s1).
Proof.
  induction k as [|k IH]; intros s; [reflexivity|].
  cbn [Nat.add rounds].
  destruct (check_active (vertices s)) eqn:Ha.
  - destruct (superstep_round update stats_fn s) as [s1|e]; cbn [bind];
      [apply IH | reflexivity].
  - cbn [bind]. now rewrite rounds_halted.
Qed.

(** The loop and its bounded unfolding agree. *)
Lemma run_rounds : forall (fuel : nat) (s : Engine V) (r : result (Engine V)),
  run update stats_fn fuel s = Some r -> r = rounds update stats_fn fuel s.
Proof.
  induction fuel as [|fuel IH]; intros s r E; cbn in E; [discriminate|].
  cbn [rounds]. destruct (check_active (vertices s)).
  - destruct (superstep_round update stats_fn s) as [s1|e]; cbn [bind].
    + now apply IH.
    + now injection E as <-.
  - now injection E as <-.
Qed.

(** A relation between a vertex and what a round makes of it holds
    between the vertices of a state and those of any later state. *)
Section Related.

Variable R : Vertex V -> Vertex V -> Prop.
Hypothesis R_refl : forall v, R v v.
Hypothesis R_trans : forall v1 v2 v3, R v1 v2 -> R v2 v3 -> R v1 v3.
Hypothesis R_round :
  forall vs1 v u v', stepped update v u -> settled vs1 u v' -> R v v'.

Lemma superstep_round_related (s s' : Engine V) :
  superstep_round update stats_fn s = Ok s' ->
  Forall2 R (vertices s) (vertices s').
Proof.
  intros E. destruct (superstep_round_inv s s' E) as (vs1 & H1 & H2 & _).
  exact (Forall2_compose _ _ R (R_round vs1) _ _ _ H1 H2).
Qed.

Lemma rounds_related : forall (k : nat) (s s' : Engine V),
  rounds update stats_fn k s = Ok s' ->
  Forall2 R (vertices s) (vertices s').
Proof.
  induction k as [|k IH]; intros s s' E; cbn in E.
  - injection E as <-. now apply Forall2_same.
  - destruct (check_active (vertices s)).
    + destruct (superstep_round update stats_fn s) as [s1|e] eqn:E1;
        cbn in E; [|discriminate].
      exact (Forall2_compose _ _ R R_trans _ _ _
               (superstep_round_related _ _ E1) (IH _ _ E)).
    + injection E as <-. now apply Forall2_same.
Qed.

End Related.

End PregelFacts.

(** ** The platform-switch simulation *)

Lemma contacts_carry random a (val : string) (outs : list nat) : forall c : nat,
  Forall (fun m => payload m = val) (fst (contacts random a outs val c)).
Proof.
  induction outs as [|v outs IH]; intros c; cbn; [constructor|].
  specialize (IH (S c)). destruct (contacts random a outs val (S c)) as [ms c'].
  destruct (Qltb (random c) a); cbn in *; [constructor|]; auto.
Qed.

Lemma SocialVertex_update_value random nsteps sp a
      (self u : Vertex string) (c c' : nat) :
  SocialVertex_update random nsteps sp a self c = Ok (u, c') ->
  id u = id self
  /\ (value u = value self \/ value u = "M"%string)
  /\ (value self = "M"%string -> value u = "M"%string).
Proof.
  unfold SocialVertex_update. intros E.
  destruct (superstep self <? nsteps).
  - destruct (String.eqb_spec (value self) "M") as [EM|NM]; cbn [bind] in E.
    + destruct (contacts random a _ _ c) as [ms c2]. injection E as <- <-.
      cbn. auto.
    + destruct (count_friends _ 0 0) as [[f m]|e]; cbn [bind] in E;
        [|discriminate].
      destruct (switch random sp f m c) as [[|] c1]; cbn [bind] in E;
        destruct (contacts random a _ _ c1) as [ms c2]; injection E as <- <-;
        cbn; auto.
  - injection E as <- <-. cbn. auto.
Qed.

(** C4. Once a social vertex is on "M" at the end of a round, it is on
    "M" at the end of every later round of the run: no update assigns a
    value other than "M", and the engine's bookkeeping leaves values
    alone. *)
Theorem switched_vertex_stays_switched :
  forall random nsteps sp a (s s1 s2 : Engine string) (t t' j : nat)
         (v1 : Vertex string),
    (t < t')%nat ->
    rounds (SocialVertex_update random nsteps sp a) (Some social_stats) (S t) s
    = Ok s1 ->
    rounds (SocialVertex_update random nsteps sp a) (Some social_stats) (S t') s
    = Ok s2 ->
    nth_error (vertices s1) j = Some v1 ->
    value v1 = "M"%string ->
    (exists v2 : Vertex string,
        nth_error (vertices s2) j = Some v2
        /\ id v2 = id v1
        /\ value v2 = "M"%string)
    /\ (forall (self u : Vertex string) (c c' : nat),
          SocialVertex_update random nsteps sp a self c = Ok (u, c') ->
          value u = value self \/ value u = "M"%string).
Proof.
  intros random nsteps sp a s s1 s2 t t' j v1 Lt E1 E2 Hj HM. split.
  - replace (S t') with (S t + (t' - t))%nat in E2 by lia.
    rewrite rounds_add, E1 in E2. cbn [bind] in E2.
    pose (R := fun v v' : Vertex string =>
                 id v' = id v /\ (value v = "M"%string -> value v' = "M"%string)).
    assert (H : Forall2 R (vertices s1) (vertices s2)).
    { apply (rounds_related (SocialVertex_update random nsteps sp a)
               (Some social_stats)) with (k := (t' - t)%nat); try exact E2.
      - exact pure_social_stats.
      - intros v. split; auto.
      - intros x y z [I1 M1] [I2 M2]. split; [congruence | auto].
      - intros vs1 v u v' St (Hid & Hval & _). unfold stepped in St.
        destruct (active v).
        + destruct St as (c & c' & Eu).
          apply SocialVertex_update_value in Eu. destruct Eu as (I & _ & M).
          split; [congruence|]. intros Hv. rewrite Hval. auto.
        + subst u. split; [congruence|]. intros Hv. now rewrite Hval. }
    destruct (Forall2_nth_error _ _ _ H j v1 Hj) as (v2 & Hj2 & I2 & M2).
    exists v2. auto.
  - intros self u c c' Eu. now apply SocialVertex_update_value in Eu.
Qed.

Lemma switched_vertex_stays_switched_witness :
  let update := SocialVertex_update (fun _ => 0%Q) 30 1 1 in
  let s := mkEngine two_friends 0 [] in
  exists (s1 s2 : Engine string) (v1 : Vertex string),
    (1 < 2)%nat
    /\ rounds update (Some social_stats) 2 s = Ok s1
    /\ rounds update (Some social_stats) 3 s = Ok s2
    /\ nth_error (vertices s1) 1 = Some v1
    /\ value v1 = "M"%string
    /\ exists v2 : Vertex string,
         nth_error (vertices s2) 1 = Some v2
         /\ id v2 = id v1
         /\ value v2 = "M"%string.
Proof.
  intros update s.
  assert (L : (1 < 2)%nat) by (constructor).
  eexists _, _, _.
  split; [exact L|].
  split; [vm_compute; reflexivity|].
  split; [vm_compute; reflexivity|].
  split; [reflexivity|].
  split; [reflexivity|].
  refine (proj1 (switched_vertex_stays_switched
                   (fun _ => 0%Q) 30 1 1 s _ _ 1%nat 2%nat 1%nat _ L
                   _ _ _ _)).
  - vm_compute. reflexivity.
  - vm_compute. reflexivity.
  - reflexivity.
  - reflexivity.
Defined.

Lemma count_friends_never_raises (msgs : list Message) (f m : Z) :
  labels msgs -> exists f' m', count_friends msgs f m = Ok (f', m').
Proof. intros L. rewrite (count_friends_labels _ f m L). eauto. Qed.

Lemma SocialVertex_update_well_labelled random nsteps sp a
      (self : Vertex string) (c : nat) :
  well_labelled self ->
  exists (u : Vertex string) (c' : nat),
    SocialVertex_update random nsteps sp a self c = Ok (u, c')
    /\ well_labelled u
    /\ (superstep self < nsteps ->
        Forall (fun m => payload m = value u) (outgoing_messages u)).
Proof.
  intros (Lv & Li & Lo). unfold SocialVertex_update.
  assert (K : forall (w : Vertex string) (c1 : nat),
             label (value w) -> incoming_messages w = incoming_messages self ->
             exists (u : Vertex string) (c' : nat),
               (let '(ms, c2) := contacts random a (out_vertices w) (value w) c1 in
                Ok (set_outgoing_messages w ms, c2)) = Ok (u, c')
               /\ well_labelled u
               /\ Forall (fun m => payload m = value u) (outgoing_messages u)).
  { intros w c1 Lw Ew.
    pose proof (contacts_carry random a (value w) (out_vertices w) c1) as C.
    destruct (contacts random a (out_vertices w) (value w) c1) as [ms c2].
    cbn [fst] in C. eexists _, _. split; [reflexivity|].
    unfold well_labelled. cbn. rewrite Ew. repeat split; auto.
    unfold labels. eapply Forall_impl; [|exact C].
    intros m0 ->. exact Lw. }
  destruct (Z.ltb_spec (superstep self) nsteps) as [Lt|Ge].
  - destruct (String.eqb_spec (value self) "M") as [EM|NM]; cbn [bind].
    + destruct (K self c Lv eq_refl) as (u & c' & E & W & O). eauto.
    + destruct (count_friends_never_raises _ 0 0 Li) as (f & m & ->).
      cbn [bind].
      destruct (switch random sp f m c) as [[|] c1]; cbn [bind].
      * destruct (K (set_value self "M"%string) c1) as (u & c' & E & W & O);
          [right; reflexivity | reflexivity | eauto].
      * destruct (K self c1 Lv eq_refl) as (u & c' & E & W & O). eauto.
  - eexists _, _. split; [reflexivity|].
    split; [exact (conj Lv (conj Li Lo)) | lia].
Qed.

Lemma social_update_active_well_labelled random nsteps sp a :
  forall (vs : list (Vertex string)) (c : nat),
    Forall well_labelled vs ->
    exists (vs1 : list (Vertex string)) (c1 : nat),
      update_active (SocialVertex_update random nsteps sp a) vs c = Ok (vs1, c1).
Proof.
  induction vs as [|v vs IH]; intros c W; cbn; [eauto|].
  inversion W as [|? ? Wv Wvs]; subst.
  destruct (active v).
  - destruct (SocialVertex_update_well_labelled random nsteps sp a v c Wv)
      as (u & c' & -> & _). cbn [bind].
    destruct (IH c' Wvs) as (vs1 & c1 & ->). cbn. eauto.
  - cbn [bind]. destruct (IH c Wvs) as (vs1 & c1 & ->). cbn. eauto.
Qed.

Lemma social_round_well_labelled random nsteps sp a (s : Engine string) :
  Forall well_labelled (vertices s) ->
  match superstep_round (SocialVertex_update random nsteps sp a)
                        (Some social_stats) s with
  | Ok s' => Forall well_labelled (vertices s')
  | Raise e => e <> ValueError
  end.
Proof.
  intros W.
  destruct (superstep_round _ _ s) as [s'|e] eqn:E.
  - destruct (superstep_round_inv _ _ pure_social_stats s s' E)
      as (vs1 & H1 & H2 & _).
    assert (W1 : Forall well_labelled vs1).
    { eapply Forall2_transport; [|exact W|exact H1].
      intros v u Wv St. unfold stepped in St. destruct (active v); [|now subst].
      destruct St as (c & c' & Eu).
      destruct (SocialVertex_update_well_labelled random nsteps sp a v c Wv)
        as (u' & c'' & Eu' & Wu & _).
      rewrite Eu in Eu'. now injection Eu' as -> _. }
    eapply Forall2_transport; [|exact W1|exact H2].
    intros u v' Wu St. destruct St as (_ & Hval & _ & _ & _ & Hout & Hin).
    destruct Wu as (Lu & _). unfold well_labelled.
    rewrite Hval, Hout. repeat split; [exact Lu| |constructor].
    unfold labels. eapply Forall_impl; [|exact Hin].
    intros m (u0 & m0 & In0 & Inm & ->).
    rewrite Forall_forall in W1. destruct (W1 u0 In0) as (_ & _ & Lo).
    unfold labels in Lo. rewrite Forall_forall in Lo. now apply Lo.
  - unfold superstep_round in E.
    destruct (social_update_active_well_labelled random nsteps sp a
                (vertices s) (cursor s) W) as (vs1 & c1 & E1).
    rewrite E1 in E. cbn [bind] in E. unfold redistribute_messages in E.
    destruct (deliverable vs1); cbn [bind] in E.
    + unfold collect in E. rewrite social_stats_eval in E.
      destruct (clear_outgoing _) as [|w ws]; cbn in E.
      * injection E as <-. discriminate.
      * discriminate.
    + injection E as <-. discriminate.
Qed.

Lemma social_rounds_well_labelled random nsteps sp a :
  forall (k : nat) (s : Engine string),
    Forall well_labelled (vertices s) ->
    match rounds (SocialVertex_update random nsteps sp a)
                 (Some social_stats) k s with
    | Ok s' => Forall well_labelled (vertices s')
    | Raise e => e <> ValueError
    end.
Proof.
  induction k as [|k IH]; intros s W; cbn; [exact W|].
  destruct (check_active (vertices s)); [|exact W].
  pose proof (social_round_well_labelled random nsteps sp a s W) as H.
  destruct (superstep_round _ _ s) as [s'|e]; cbn [bind]; [now apply IH | exact H].
Qed.

(** C9. In a run of social vertices whose values and buffered payloads
    are platform labels at the start, no round raises [ValueError]: every
    update returns, every message an update emits carries the vertex's
    own value, and values and payloads remain platform labels in every
    state the run reaches. *)
Theorem social_run_never_raises_ValueError :
  forall random nsteps sp a (s : Engine string),
    Forall well_labelled (vertices s) ->
    (forall k : nat,
        rounds (SocialVertex_update random nsteps sp a) (Some social_stats) k s
        <> Raise ValueError)
    /\ (forall fuel : nat,
          run (SocialVertex_update random nsteps sp a) (Some social_stats) fuel s
          <> Some (Raise ValueError))
    /\ (forall (k : nat) (s' : Engine string),
          rounds (SocialVertex_update random nsteps sp a) (Some social_stats) k s
          = Ok s' ->
          Forall well_labelled (vertices s')
          /\ forall (self : Vertex string) (c : nat),
               In self (vertices s') ->
               exists (u : Vertex string) (c' : nat),
                 SocialVertex_update random nsteps sp a self c = Ok (u, c')
                 /\ (superstep self < nsteps ->
                     Forall (fun m => payload m = value u)
                            (outgoing_messages u))).
Proof.
  intros random nsteps sp a s W.
  assert (A : forall k : nat,
             rounds (SocialVertex_update random nsteps sp a)
                    (Some social_stats) k s <> Raise ValueError).
  { intros k E.
    pose proof (social_rounds_well_labelled random nsteps sp a k s W) as H.
    rewrite E in H. now apply H. }
  split; [exact A|]. split.
  - intros fuel E. apply run_rounds in E. symmetry in E. exact (A fuel E).
  - intros k s' E.
    pose proof (social_rounds_well_labelled random nsteps sp a k s W) as H.
    rewrite E in H. split; [exact H|].
    intros self c Hin. rewrite Forall_forall in H.
    destruct (SocialVertex_update_well_labelled random nsteps sp a self c
                (H self Hin)) as (u & c' & Eu & _ & O).
    eauto.
Qed.

Lemma social_run_never_raises_ValueError_witness :
  let s := mkEngine two_friends 0 [] in
  let update := SocialVertex_update (fun _ => 0%Q) 30 1 1 in
  Forall well_labelled (vertices s)
  /\ (exists s1 : Engine string,
        rounds update (Some social_stats) 1 s = Ok s1
        /\ map incoming_messages (vertices s1)
           = [[(1%nat, 1, "F"%string)]; [(0%nat, 1, "M"%string)]])
  /\ rounds update (Some social_stats) 31 s <> Raise ValueError.
Proof.
  intros s update.
  assert (W : Forall well_labelled (vertices s)).
  { constructor; [|constructor; [|constructor]].
    - split; [right; reflexivity | split; constructor].
    - split; [left; reflexivity | split; constructor]. }
  split; [exact W|]. split.
  - eexists. split; [vm_compute; reflexivity | reflexivity].
  - exact (proj1 (social_run_never_raises_ValueError
                    (fun _ => 0%Q) 30 1%Q 1%Q s W) 31%nat).
Defined.

(** ** The step ceiling *)

Lemma set_active_inactive {V : Type} (v : Vertex V) :
  active v = false -> set_active v false = v.
Proof. destruct v; cbn; now intros ->. Qed.

Section Ceiling.

Context {V : Type}.
Variable update : Vertex V -> nat -> result (Vertex V * nat).
Variable stats_fn : option (Prog V Stats).
Hypothesis stats_pure : pure_stats stats_fn.
Hypothesis stats_total : total_stats stats_fn.

Lemma update_active_halting : forall (vs : list (Vertex V)) (c : nat),
  Forall (halting update) vs ->
  update_active update vs c = Ok (map (fun v => set_active v false) vs, c).
Proof.
  induction vs as [|v vs IH]; intros c H; [reflexivity|].
  inversion H as [|? ? Hv Hvs]; subst. cbn [update_active map].
  destruct (active v) eqn:Ha.
  - rewrite (Hv c). cbn [bind]. rewrite (IH c Hvs). reflexivity.
  - cbn [bind]. rewrite (IH c Hvs). cbn [bind].
    now rewrite (set_active_inactive v Ha).
Qed.

Lemma halting_round (s s' : Engine V) :
  Forall (halting update) (vertices s) ->
  superstep_round update stats_fn s = Ok s' ->
  Forall2 (fun v v' => active v' = false
                       /\ value v' = value v
                       /\ id v' = id v
                       /\ out_vertices v' = out_vertices v
                       /\ outgoing_messages v' = [])
          (vertices s) (vertices s')
  /\ cursor s' = cursor s.
Proof.
  intros H E. split.
  - destruct (superstep_round_inv update stats_fn stats_pure s s' E)
      as (vs1 & H1 & H2 & _).
    pose proof (Forall2_with _ _ _ _ H H1) as H1'.
    eapply Forall2_compose; [|exact H1'|exact H2].
    intros v u v' [Hv St] (Hid & Hval & Hout & Hact & _ & Hog & _).
    cbn beta.
    assert (Eu : u = set_active v false).
    { unfold stepped in St. destruct (active v) eqn:Ha.
      - destruct St as (c & c' & Eu). rewrite (Hv c) in Eu.
        now injection Eu as <- _.
      - subst u. symmetry. now apply set_active_inactive. }
    subst u. cbn in *. auto.
  - unfold superstep_round in E.
    rewrite (update_active_halting _ _ H) in E. cbn [bind] in E.
    destruct (redistribute_messages _) as [vs2|e]; cbn [bind] in E;
      [|discriminate].
    destruct (collect stats_fn _ _) as [[vs3 d]|e]; cbn [bind] in E;
      [|discriminate].
    now injection E as <-.
Qed.

Lemma halting_round_raises (s : Engine V) (e : Error) :
  Forall (halting update) (vertices s) ->
  check_active (vertices s) = true ->
  superstep_round update stats_fn s = Raise e ->
  e = UndeliverableMessage.
Proof.
  intros H Ha E. unfold superstep_round in E.
  rewrite (update_active_halting _ _ H) in E. cbn [bind] in E.
  unfold redistribute_messages in E.
  destruct (deliverable _); cbn [bind] in E; [|now injection E as <-].
  exfalso. unfold collect in E.
  destruct stats_fn as [f|] eqn:Ef; [|discriminate].
  destruct (vertices s) as [|v vs]; [discriminate|].
  cbn [map deliver clear_outgoing] in E.
  match type of E with
  | context [f (?w :: ?ws)] =>
      destruct (stats_total f eq_refl w ws) as (row & Er); rewrite Er in E
  end.
  discriminate.
Qed.

(** After a round in which every update only votes to halt, the loop
    stops. *)
Lemma halting_run (s : Engine V) :
  Forall (halting update) (vertices s) ->
  exists r : result (Engine V),
    run update stats_fn 2 s = Some r
    /\ match r with
       | Ok s' =>
           check_active (vertices s') = false
           /\ values (vertices s') = values (vertices s)
           /\ cursor s' = cursor s
       | Raise e => e = UndeliverableMessage
       end.
Proof.
  intros H. cbn [run].
  destruct (check_active (vertices s)) eqn:Ha.
  - destruct (superstep_round update stats_fn s) as [s'|e] eqn:E.
    + destruct (halting_round s s' H E) as [F Ec].
      assert (K : check_active (vertices s') = false
                  /\ values (vertices s') = values (vertices s)).
      { clear - F. unfold check_active, values.
        induction F as [|v v' l l' (A1 & A2 & _) F [IH1 IH2]]; cbn; [auto|].
        rewrite A1, A2, IH1, IH2. auto. }
      destruct K as [K1 K2]. rewrite K1.
      exists (Ok s'). split; [reflexivity|]. auto.
    + eexists. split; [reflexivity|].
      exact (halting_round_raises s e H Ha E).
  - eexists. split; [reflexivity|]. cbn. auto.
Qed.

End Ceiling.

Section CeilingReturns.

Context {V : Type}.
Variable update : Vertex V -> nat -> result (Vertex V * nat).
Variable stats_fn : option (Prog V Stats).
Hypothesis stats_pure : pure_stats stats_fn.
Hypothesis stats_total : total_stats stats_fn.

Lemma nothing_to_deliver (vs : list (Vertex V)) :
  Forall (fun v => outgoing_messages v = []) vs ->
  deliverable (map (fun v => set_active v false) vs) = true.
Proof.
  intros F. unfold deliverable. apply forallb_forall. intros w Hw.
  apply in_map_iff in Hw. destruct Hw as (v & <- & Hv).
  rewrite Forall_forall in F. cbn. now rewrite (F v Hv).
Qed.

(** With nothing left to deliver, a round in which every update only
    votes to halt does not raise. *)
Lemma halting_round_returns (s : Engine V) :
  Forall (halting update) (vertices s) ->
  Forall (fun v => outgoing_messages v = []) (vertices s) ->
  check_active (vertices s) = true ->
  exists s' : Engine V, superstep_round update stats_fn s = Ok s'.
Proof.
  intros H O Ha. unfold superstep_round.
  rewrite (update_active_halting update _ _ H). cbn [bind].
  unfold redistribute_messages. rewrite (nothing_to_deliver _ O). cbn [bind].
  unfold collect. destruct stats_fn as [f|] eqn:Ef; [|cbn [bind]; eauto].
  destruct (vertices s) as [|v vs]; [discriminate Ha|].
  cbn [map deliver clear_outgoing].
  match goal with
  | |- context [f (?w :: ?ws)] =>
      destruct (stats_total f eq_refl w ws) as (row & ->)
  end.
  cbn [bind]. eauto.
Qed.

Lemma halting_run_returns (s : Engine V) :
  Forall (halting update) (vertices s) ->
  Forall (fun v => outgoing_messages v = []) (vertices s) ->
  exists s' : Engine V,
    run update stats_fn 2 s = Some (Ok s')
    /\ check_active (vertices s') = false
    /\ values (vertices s') = values (vertices s)
    /\ cursor s' = cursor s.
Proof.
  intros H O. cbn [run].
  destruct (check_active (vertices s)) eqn:Ha; [|exists s; auto].
  destruct (halting_round_returns s H O Ha) as (s1 & E1). rewrite E1.
  destruct (halting_round update stats_fn stats_pure s s1 H E1) as [F Ec].
  assert (K : check_active (vertices s1) = false
              /\ values (vertices s1) = values (vertices s)).
  { clear - F. unfold check_active, values.
    induction F as [|v v' l l' (A1 & A2 & _) F [IH1 IH2]]; cbn; [auto|].
    rewrite A1, A2, IH1, IH2. auto. }
  destruct K as [K1 K2]. rewrite K1. exists s1. auto.
Qed.

End CeilingReturns.

Lemma total_epidemic_stats : total_stats (Some epidemic_stats).
Proof.
  intros f Ef v vs. injection Ef as <-. rewrite epidemic_stats_eval. eauto.
Qed.

Lemma total_social_stats : total_stats (Some social_stats).
Proof.
  intros f Ef v vs. injection Ef as <-. rewrite social_stats_eval. eauto.
Qed.

Lemma EpidemicVertex_update_at_ceiling random nsteps p i td (self : Vertex Z) :
  superstep self >= nsteps -> superstep self <> 0 ->
  halting (EpidemicVertex_update random nsteps p i td) self.
Proof.
  intros Ge Nz c. unfold EpidemicVertex_update.
  destruct (Z.eqb_spec (superstep self) 0) as [E0|_]; [contradiction|].
  destruct (Z.ltb_spec (superstep self) nsteps) as [L|_]; [lia|reflexivity].
Qed.

Lemma SocialVertex_update_at_ceiling random nsteps sp a (self : Vertex string) :
  superstep self >= nsteps ->
  halting (SocialVertex_update random nsteps sp a) self.
Proof.
  intros Ge c. unfold SocialVertex_update.
  destruct (Z.ltb_spec (superstep self) nsteps) as [L|_]; [lia|reflexivity].
Qed.

(** C7, as the specification words it, fails for the epidemic vertex:
    with a ceiling of 0, the update at superstep 0 is at the ceiling, yet
    it initialises the value and leaves the vertex active. *)
Lemma ceiling_update_may_initialise :
  ~ ((forall random nsteps p i td (self : Vertex Z) (c : nat),
         superstep self >= nsteps ->
         EpidemicVertex_update random nsteps p i td self c
         = Ok (set_active self false, c))
     /\ (forall random nsteps sp a (self : Vertex string) (c : nat),
           superstep self >= nsteps ->
           SocialVertex_update random nsteps sp a self c
           = Ok (set_active self false, c))).
Proof.
  intros [H _].
  specialize (H (fun _ => 0%Q) 0 (1 # 10) 1 1
                (mkVertex 0 0 [] [] [] true 0) 0%nat).
  cbn in H. assert (G : 0 >= 0) by lia. specialize (H G). discriminate H.
Qed.

(** C7, amended. An update invoked at a superstep at or beyond [nsteps]
    sets [active] to false and changes nothing else, and makes no draw:
    for every social vertex, and for every epidemic vertex whose
    superstep is not 0. From a state between two rounds (outgoing
    buffers empty, as every round leaves them) whose vertices are all at
    such a superstep, the loop runs at most one round and returns: no
    vertex is active, all values are unchanged and the random source is
    untouched. *)
Theorem update_at_ceiling_votes_to_halt :
  (forall random nsteps p i td (self : Vertex Z) (c : nat),
      superstep self >= nsteps -> superstep self <> 0 ->
      EpidemicVertex_update random nsteps p i td self c
      = Ok (set_active self false, c))
  /\ (forall random nsteps sp a (self : Vertex string) (c : nat),
        superstep self >= nsteps ->
        SocialVertex_update random nsteps sp a self c
        = Ok (set_active self false, c))
  /\ (forall random nsteps p i td (s : Engine Z),
        Forall (fun v => superstep v >= nsteps /\ superstep v <> 0
                         /\ outgoing_messages v = []) (vertices s) ->
        exists s' : Engine Z,
          run (EpidemicVertex_update random nsteps p i td)
              (Some epidemic_stats) 2 s = Some (Ok s')
          /\ check_active (vertices s') = false
          /\ values (vertices s') = values (vertices s)
          /\ cursor s' = cursor s)
  /\ (forall random nsteps sp a (s : Engine string),
        Forall (fun v => superstep v >= nsteps /\ outgoing_messages v = [])
               (vertices s) ->
        exists s' : Engine string,
          run (SocialVertex_update random nsteps sp a)
              (Some social_stats) 2 s = Some (Ok s')
          /\ check_active (vertices s') = false
          /\ values (vertices s') = values (vertices s)
          /\ cursor s' = cursor s).
Proof.
  split; [|split; [|split]].
  - intros random nsteps p i td self c Ge Nz.
    now apply EpidemicVertex_update_at_ceiling.
  - intros random nsteps sp a self c Ge.
    now apply SocialVertex_update_at_ceiling.
  - intros random nsteps p i td s H.
    apply halting_run_returns;
      [exact pure_epidemic_stats | exact total_epidemic_stats | |].
    + eapply Forall_impl; [|exact H].
      intros v (Ge & Nz & _). now apply EpidemicVertex_update_at_ceiling.
    + eapply Forall_impl; [|exact H]. intros v (_ & _ & O). exact O.
  - intros random nsteps sp a s H.
    apply halting_run_returns;
      [exact pure_social_stats | exact total_social_stats | |].
    + eapply Forall_impl; [|exact H].
      intros v (Ge & _). now apply SocialVertex_update_at_ceiling.
    + eapply Forall_impl; [|exact H]. intros v (_ & O). exact O.
Qed.

Lemma update_at_ceiling_votes_to_halt_witness :
  let self := mkVertex 4 2 [1%nat] [(1%nat, 1, "sneeze"%string)] [] true 50 in
  let s := mkEngine [self] 3 [] in
  let s' := mkEngine [mkVertex 4 2 [1%nat] [] [] false 51] 3
                     [(50, 1 # 1, 1 # 1)] in
  superstep self >= 50
  /\ superstep self <> 0
  /\ Forall (fun v => superstep v >= 50 /\ superstep v <> 0
                      /\ outgoing_messages v = []) (vertices s)
  /\ EpidemicVertex_update (fun _ => 0%Q) 50 (1 # 10) 1 1 self 3
     = Ok (set_active self false, 3%nat)
  /\ run (EpidemicVertex_update (fun _ => 0%Q) 50 (1 # 10) 1 1)
         (Some epidemic_stats) 2 s = Some (Ok s')
  /\ exists s1 : Engine Z,
       run (EpidemicVertex_update (fun _ => 0%Q) 50 (1 # 10) 1 1)
           (Some epidemic_stats) 2 s = Some (Ok s1)
       /\ check_active (vertices s1) = false
       /\ values (vertices s1) = values (vertices s)
       /\ cursor s1 = cursor s.
Proof.
  intros self s s'.
  assert (Ge : superstep self >= 50) by (cbn; discriminate).
  assert (Nz : superstep self <> 0) by (cbn; discriminate).
  assert (F : Forall (fun v => superstep v >= 50 /\ superstep v <> 0
                               /\ outgoing_messages v = []) (vertices s)).
  { constructor; [|constructor]. split; [exact Ge|]. split; [exact Nz|].
    reflexivity. }
  split; [exact Ge|]. split; [exact Nz|]. split; [exact F|]. split; [|split].
  - exact (proj1 update_at_ceiling_votes_to_halt
             (fun _ => 0%Q) 50 (1 # 10) 1 1 self 3%nat Ge Nz).
  - vm_compute. reflexivity.
  - exact (proj1 (proj2 (proj2 update_at_ceiling_votes_to_halt))
             (fun _ => 0%Q) 50 (1 # 10) 1 1 s F).
Defined.

(** ** The epidemic simulation *)

Lemma infection_trials_fields random p (msgs : list Message) :
  forall (self : Vertex Z) (c : nat),
    let u := fst (infection_trials random p msgs self c) in
    (value u = value self \/ value u = 1)
    /\ id u = id self /\ active u = active self
    /\ superstep u = superstep self.
Proof.
  intros self c. rewrite infection_trials_spec. cbn [fst].
  destruct (some_success _); cbn; auto.
Qed.

Lemma EpidemicVertex_update_initial random nsteps p i td
      (self u : Vertex Z) (c c' : nat) :
  superstep self = 0 ->
  EpidemicVertex_update random nsteps p i td self c = Ok (u, c') ->
  (value u = 0 \/ value u = 1)
  /\ active u = active self /\ superstep u = 0.
Proof.
  intros E0 E. unfold EpidemicVertex_update in E. rewrite E0 in E.
  cbn [Z.eqb] in E.
  destruct (id self <? i); injection E as <- <-; cbn; auto.
Qed.

Lemma EpidemicVertex_update_later random nsteps p i td
      (self u : Vertex Z) (c c' : nat) :
  superstep self <> 0 ->
  EpidemicVertex_update random nsteps p i td self c = Ok (u, c') ->
  superstep u = superstep self
  /\ (value self = -1 -> value u = -1)
  /\ (value self >= -1 -> value u >= -1)
  /\ (value self >= -1 -> value u >= 0 -> value self >= 0).
Proof.
  intros Nz E. unfold EpidemicVertex_update in E.
  destruct (Z.eqb_spec (superstep self) 0) as [E0|_]; [contradiction|].
  destruct (superstep self <? nsteps).
  - destruct (Z.eqb_spec (value self) (-1)) as [E1|N1].
    + injection E as <- <-. cbn. repeat split; auto; lia.
    + destruct (Z.gtb_spec (value self) 0) as [G|G].
      * destruct (value self <=? td); injection E as <- <-; cbn;
          repeat split; auto; lia.
      * pose proof (infection_trials_fields random p (incoming_messages self)
                      self c) as F.
        destruct (infection_trials random p _ self c) as [w c1].
        injection E as <- <-. cbn [fst] in F.
        destruct F as (Fv & _ & _ & Fs). repeat split; auto; lia.
  - injection E as <- <-. cbn. repeat split; auto; lia.
Qed.

Lemma round_initialises random nsteps p i td (vs1 : list (Vertex Z))
      (v u v' : Vertex Z) :
  superstep v = 0 ->
  stepped (EpidemicVertex_update random nsteps p i td) v u ->
  settled vs1 u v' ->
  past_initialisation v'.
Proof.
  intros E0 St (_ & Hval & _ & Hact & Hs & _). unfold stepped in St.
  unfold past_initialisation. rewrite Hval, Hact, Hs.
  destruct (active v) eqn:Ha.
  - destruct St as (c & c' & Eu).
    destruct (EpidemicVertex_update_initial _ _ _ _ _ _ _ _ _ E0 Eu)
      as (Hv & _ & Hz).
    split; lia.
  - subst u. rewrite Ha. split; [lia | discriminate].
Qed.

Lemma round_keeps_the_dead random nsteps p i td (vs1 : list (Vertex Z))
      (v u v' : Vertex Z) :
  past_initialisation v ->
  stepped (EpidemicVertex_update random nsteps p i td) v u ->
  settled vs1 u v' ->
  past_initialisation v' /\ (value v' >= 0 -> value v >= 0).
Proof.
  intros [Hs Hg] St (_ & Hval & _ & Hact & Hs' & _). unfold stepped in St.
  unfold past_initialisation. rewrite Hval, Hact, Hs'.
  destruct (active v) eqn:Ha.
  - destruct St as (c & c' & Eu).
    destruct (EpidemicVertex_update_later random nsteps p i td v u c c')
      as (Es & _ & K1 & K2); [lia | exact Eu |].
    specialize (Hg eq_refl). repeat split; auto; lia.
  - subst u. rewrite Ha. repeat split; auto; lia.
Qed.

Lemma tally_alive_le (vs ws : list (Vertex Z)) :
  Forall2 (fun v v' => value v' >= 0 -> value v >= 0) vs ws ->
  tally (fun v => value v >=? 0) ws <= tally (fun v => value v >=? 0) vs.
Proof.
  induction 1 as [|v v' vs ws H F IH]; cbn [tally]; [lia|].
  destruct (Z.geb_spec (value v') 0) as [G|G];
    destruct (Z.geb_spec (value v) 0) as [G'|G']; lia.
Qed.

Lemma proportion_le {V : Type} (t1 t2 : Vertex V -> bool)
      (vs ws : list (Vertex V)) :
  List.length vs = List.length ws ->
  tally t1 ws <= tally t2 vs ->
  (proportion t1 ws <= proportion t2 vs)%Q.
Proof.
  intros L T. unfold proportion, Qle. cbn [Qnum Qden]. rewrite L.
  apply Z.mul_le_mono_nonneg_r; [lia | exact T].
Qed.

Lemma values_advance {V : Type} (vs : list (Vertex V)) :
  values (advance vs) = values vs.
Proof. unfold values, advance. rewrite map_map. now apply map_ext. Qed.

Lemma last_row_snoc (d : list Stats) (row : Stats) :
  last_row (d ++ [row]) = Some row.
Proof.
  unfold last_row. rewrite length_app. cbn [List.length].
  replace (pred (List.length d + 1)) with (List.length d + 0)%nat by lia.
  now rewrite nth_error_app2, Nat.add_comm, Nat.add_sub by lia.
Qed.

Lemma nonincreasing_snoc (d : list Stats) (row : Stats) :
  nonincreasing d ->
  (forall r, last_row d = Some r -> (pAlive row <= pAlive r)%Q) ->
  nonincreasing (d ++ [row]).
Proof.
  intros N L j r1 r2 E1 E2.
  assert (B : (S j < List.length (d ++ [row]))%nat).
  { apply nth_error_Some. now rewrite E2. }
  rewrite length_app in B. cbn [List.length] in B.
  destruct (Nat.eq_dec (S j) (List.length d)) as [Ej|Nj].
  - rewrite nth_error_app1 in E1 by lia.
    rewrite nth_error_app2, Ej, Nat.sub_diag in E2 by lia.
    cbn in E2. injection E2 as <-. apply L. unfold last_row.
    now rewrite <- Ej.
  - rewrite nth_error_app1 in E1, E2 by lia. exact (N j r1 r2 E1 E2).
Qed.

Lemma epidemic_round_invariant random nsteps p i td (s s' : Engine Z) :
  epidemic_invariant s ->
  superstep_round (EpidemicVertex_update random nsteps p i td)
                  (Some epidemic_stats) s = Ok s' ->
  epidemic_invariant s'.
Proof.
  intros (N & L & Ph) E.
  destruct (superstep_round_inv _ _ pure_epidemic_stats s s' E)
    as (vs1 & H1 & H2 & vs3 & row & Er & Ev & Ed).
  assert (Prow : pAlive row = proportion (fun v => value v >=? 0) (vertices s')).
  { rewrite epidemic_stats_eval in Er. destruct vs3 as [|v0 rest];
      [discriminate|]. injection Er as <-. unfold pAlive. cbn [fst snd].
    rewrite Ev. symmetry.
    apply (proportion_values (fun x => x >=? 0)), values_advance. }
  unfold epidemic_invariant. rewrite Ed. split; [|split].
  - apply nonincreasing_snoc; [exact N|].
    intros r Hr. destruct Ph as [[D _]|G].
    + rewrite D in Hr. discriminate Hr.
    + eapply Qle_trans; [|exact (L r Hr)]. rewrite Prow.
      assert (F : Forall2 (fun v v' => value v' >= 0 -> value v >= 0)
                          (vertices s) (vertices s')).
      { eapply Forall2_compose; [|exact (Forall2_with _ _ _ _ G H1)|exact H2].
        intros v u v' [Gv St] Se.
        exact (proj2 (round_keeps_the_dead _ _ _ _ _ _ _ _ _ Gv St Se)). }
      apply proportion_le; [|now apply tally_alive_le].
      exact (Forall2_length F).
  - intros r Hr. rewrite last_row_snoc in Hr. injection Hr as <-.
    rewrite Prow. apply Qle_refl.
  - right. destruct Ph as [[_ Z0]|G].
    + pose proof (Forall2_compose _ _ (fun _ v' => past_initialisation v')
                    (fun v u v' (A : superstep v = 0 /\ _) Se =>
                       round_initialises random nsteps p i td vs1 v u v'
                                         (proj1 A) (proj2 A) Se)
                    _ _ _ (Forall2_with _ _ _ _ Z0 H1) H2) as F.
      clear - F. induction F; constructor; auto.
    + pose proof (Forall2_compose _ _ (fun _ v' => past_initialisation v')
                    (fun v u v' (A : past_initialisation v /\ _) Se =>
                       proj1 (round_keeps_the_dead random nsteps p i td vs1
                                v u v' (proj1 A) (proj2 A) Se))
                    _ _ _ (Forall2_with _ _ _ _ G H1) H2) as F.
      clear - F. induction F; constructor; auto.
Qed.

Lemma epidemic_rounds_invariant random nsteps p i td :
  forall (k : nat) (s s' : Engine Z),
    epidemic_invariant s ->
    rounds (EpidemicVertex_update random nsteps p i td)
           (Some epidemic_stats) k s = Ok s' ->
    epidemic_invariant s'.
Proof.
  induction k as [|k IH]; intros s s' I E; cbn in E.
  - now injection E as <-.
  - destruct (check_active (vertices s)); [|now injection E as <-].
    destruct (superstep_round _ _ s) as [s1|e] eqn:E1; cbn [bind] in E;
      [|discriminate].
    exact (IH s1 s' (epidemic_round_invariant _ _ _ _ _ _ _ I E1) E).
Qed.

Lemma epidemic_invariant_initially (vs : list (Vertex Z)) (c : nat) :
  Forall (fun v => superstep v = 0) vs ->
  epidemic_invariant (mkEngine vs c []).
Proof.
  intros Z0. split; [|split].
  - intros [|j] r1 r2 E; discriminate E.
  - intros r E. discriminate E.
  - left. auto.
Qed.

(** C5. In every run of the epidemic started from vertices at superstep
    0, the proportion of alive vertices recorded by [epidemic_stats] is
    non-increasing from each row of the series to the next, in every
    state the run reaches and in the state it returns. After the
    initialising superstep, no update moves a value from -1 back to a
    value of 0 or more. *)
Theorem alive_fraction_never_grows :
  forall random nsteps p i td (vs : list (Vertex Z)) (c : nat),
    Forall (fun v => superstep v = 0) vs ->
    (forall (k : nat) (s' : Engine Z),
        rounds (EpidemicVertex_update random nsteps p i td)
               (Some epidemic_stats) k (mkEngine vs c []) = Ok s' ->
        nonincreasing (data s'))
    /\ (forall (fuel : nat) (s' : Engine Z),
          epidemic_pregel random nsteps p i td fuel vs c = Some (Ok s') ->
          nonincreasing (data s'))
    /\ (forall (self u : Vertex Z) (c0 c' : nat),
          superstep self <> 0 ->
          value self = -1 ->
          EpidemicVertex_update random nsteps p i td self c0 = Ok (u, c') ->
          value u = -1).
Proof.
  intros random nsteps p i td vs c Z0.
  assert (A : forall (k : nat) (s' : Engine Z),
             rounds (EpidemicVertex_update random nsteps p i td)
                    (Some epidemic_stats) k (mkEngine vs c []) = Ok s' ->
             nonincreasing (data s')).
  { intros k s' E.
    exact (proj1 (epidemic_rounds_invariant random nsteps p i td k _ s'
                    (epidemic_invariant_initially vs c Z0) E)). }
  split; [exact A|]. split.
  - intros fuel s' E. unfold epidemic_pregel in E. apply run_rounds in E.
    symmetry in E. exact (A fuel s' E).
  - intros self u c0 c' Nz Hv Eu.
    exact (proj1 (proj2 (EpidemicVertex_update_later _ _ _ _ _ _ _ _ _ Nz Eu)) Hv).
Qed.

Lemma alive_fraction_never_grows_witness :
  Forall (fun v : Vertex Z => superstep v = 0) two_vertices
  /\ exists s' : Engine Z,
       epidemic_pregel (fun _ => 0%Q) 50 1 1 1 6 two_vertices 0 = Some (Ok s')
       /\ List.length (data s') = 5%nat
       /\ nonincreasing (data s').
Proof.
  assert (Z0 : Forall (fun v : Vertex Z => superstep v = 0) two_vertices).
  { repeat constructor. }
  split; [exact Z0|].
  eexists. split; [vm_compute; reflexivity|]. split; [reflexivity|].
  refine (proj1 (proj2 (alive_fraction_never_grows
                          (fun _ => 0%Q) 50 1 1 1 two_vertices 0%nat Z0))
            6%nat _ _).
  vm_compute. reflexivity.
Defined.

(** ** Runs under update rules that agree *)

Section Agreement.

Context {V : Type}.
Variables update1 update2 : Vertex V -> nat -> result (Vertex V * nat).
Variable stats_fn : option (Prog V Stats).
Variable P : Vertex V -> Prop.
Hypothesis agree : forall v c, P v -> update1 v c = update2 v c.

Lemma update_active_agree : forall (vs : list (Vertex V)) (c : nat),
  Forall P vs -> update_active update1 vs c = update_active update2 vs c.
Proof.
  induction vs as [|v vs IH]; intros c F; [reflexivity|].
  inversion F as [|? ? Pv Pvs]; subst. cbn [update_active].
  rewrite (agree v c Pv).
  destruct (if active v then update2 v c else Ok (v, c)) as [[u c']|e];
    cbn [bind]; [|reflexivity].
  now rewrite (IH c' Pvs).
Qed.

Lemma superstep_round_agree (s : Engine V) :
  Forall P (vertices s) ->
  superstep_round update1 stats_fn s = superstep_round update2 stats_fn s.
Proof.
  intros F. unfold superstep_round. now rewrite (update_active_agree _ _ F).
Qed.

Lemma rounds_agree : forall (k : nat) (s : Engine V),
  (forall (j : nat) (sj : Engine V),
      (j < k)%nat -> rounds update2 stats_fn j s = Ok sj ->
      Forall P (vertices sj)) ->
  rounds update1 stats_fn k s = rounds update2 stats_fn k s.
Proof.
  induction k as [|k IH]; intros s H; [reflexivity|].
  cbn [rounds]. destruct (check_active (vertices s)) eqn:Ha; [|reflexivity].
  rewrite (superstep_round_agree s (H 0%nat s (Nat.lt_0_succ k) eq_refl)).
  destruct (superstep_round update2 stats_fn s) as [s1|e] eqn:E1;
    cbn [bind]; [|reflexivity].
  apply IH. intros j sj Lj Ej. apply (H (S j) sj); [lia|].
  cbn [rounds]. now rewrite Ha, E1.
Qed.

End Agreement.

Section Returning.

Context {V : Type}.
Variable update : Vertex V -> nat -> result (Vertex V * nat).
Variable stats_fn : option (Prog V Stats).

(** The loop returns as soon as its bounded unfolding has raised or
    reached a state without an active vertex. *)
Lemma run_returns : forall (k : nat) (s : Engine V),
  match rounds update stats_fn k s with
  | Ok s' =>
      check_active (vertices s') = false ->
      run update stats_fn (S k) s = Some (Ok s')
  | Raise e => run update stats_fn (S k) s = Some (Raise e)
  end.
Proof.
  induction k as [|k IH]; intros s.
  - cbn. now intros ->.
  - cbn [rounds]. destruct (check_active (vertices s)) eqn:Ha.
    + change (run update stats_fn (S (S k)) s)
        with (if check_active (vertices s)
              then match superstep_round update stats_fn s with
                   | Ok s' => run update stats_fn (S k) s'
                   | Raise e => Some (Raise e)
                   end
              else Some (Ok s)).
      rewrite Ha.
      destruct (superstep_round update stats_fn s) as [s1|e]; cbn [bind];
        [apply IH | reflexivity].
    + intros _. cbn [run]. now rewrite Ha.
Qed.

End Returning.

(** ** The two-vertex epidemic *)

Lemma infection_trials_same_outcomes (r1 r2 : nat -> Q) (p : Q)
      (msgs : list Message) :
  (forall c, Qltb (r1 c) p = Qltb (r2 c) p) ->
  forall (self : Vertex Z) (c : nat),
    infection_trials r1 p msgs self c = infection_trials r2 p msgs self c.
Proof.
  intros H. induction msgs as [|x rest IH]; intros self c; [reflexivity|].
  cbn [infection_trials]. rewrite (H c). now rewrite !IH.
Qed.

Lemma EpidemicVertex_update_certain_infection random nsteps i td
      (self : Vertex Z) (c : nat) :
  unit_interval random ->
  5 <= nsteps ->
  0 <= superstep self < 5 ->
  EpidemicVertex_update random nsteps 1 i td self c
  = EpidemicVertex_update (fun _ => 0%Q) 50 1 i td self c.
Proof.
  intros U N B. unfold EpidemicVertex_update.
  destruct (Z.ltb_spec (superstep self) nsteps) as [_|G]; [|lia].
  destruct (Z.ltb_spec (superstep self) 50) as [_|G]; [|lia].
  rewrite (infection_trials_same_outcomes random (fun _ => 0%Q) 1); [reflexivity|].
  intros c0. now rewrite Qltb_below_one.
Qed.

(** C6, as the specification words it, fails: at the end of round 3
    vertex 1 is still infected, and the row of round 3 does not record
    a proportion of 0. *)
Lemma two_vertices_not_dead_by_round_3 :
  let update := EpidemicVertex_update (fun _ => 0%Q) 50 1 1 1 in
  let after := fun t : nat =>
    rounds update (Some epidemic_stats) (S t) (mkEngine two_vertices 0 []) in
  ~ (exists (s2 s3 : Engine Z) (v1 : Vertex Z) (r0 r3 : Stats),
        after 2%nat = Ok s2
        /\ nth_error (vertices s2) 1 = Some v1
        /\ 0 < value v1
        /\ after 3%nat = Ok s3
        /\ values (vertices s3) = [-1; -1]
        /\ nth_error (data s3) 0 = Some r0
        /\ (pAlive r0 == 1)%Q
        /\ nth_error (data s3) 3 = Some r3
        /\ (pAlive r3 == 0)%Q).
Proof.
  intros update after (s2 & s3 & v1 & r0 & r3 & _ & _ & _ & E3 & Hv & _).
  vm_compute in E3. injection E3 as <-. discriminate Hv.
Qed.

Lemma two_vertices_rounds random nsteps (k : nat) :
  unit_interval random ->
  5 <= nsteps ->
  (k <= 5)%nat ->
  rounds (EpidemicVertex_update random nsteps 1 1 1) (Some epidemic_stats) k
         (mkEngine two_vertices 0 [])
  = rounds (EpidemicVertex_update (fun _ => 0%Q) 50 1 1 1) (Some epidemic_stats) k
           (mkEngine two_vertices 0 []).
Proof.
  intros U N K.
  apply rounds_agree with (P := fun v => 0 <= superstep v < 5).
  - intros v c B. now apply EpidemicVertex_update_certain_infection.
  - intros j sj Lj Ej.
    destruct j as [|[|[|[|[|j]]]]]; try lia;
      vm_compute in Ej; injection Ej as <-;
      repeat constructor; discriminate.
Qed.

Lemma two_vertices_certain_trace :
  let after := fun t : nat =>
    rounds (EpidemicVertex_update (fun _ => 0%Q) 50 1 1 1)
           (Some epidemic_stats) (S t) (mkEngine two_vertices 0 []) in
  (exists s, after 0%nat = Ok s /\ values (vertices s) = [1; 0])
  /\ (exists s, after 1%nat = Ok s /\ values (vertices s) = [2; 0])
  /\ (exists s, after 2%nat = Ok s /\ values (vertices s) = [-1; 1])
  /\ (exists s, after 3%nat = Ok s /\ values (vertices s) = [-1; 2])
  /\ (exists s,
        after 4%nat = Ok s
        /\ values (vertices s) = [-1; -1]
        /\ map (fun row : Stats => fst (fst row)) (data s) = [0; 1; 2; 3; 4]
        /\ Forall2 Qeq (map pAlive (data s)) [1; 1; 1 # 2; 1 # 2; 0]%Q
        /\ check_active (vertices s) = false).
Proof.
  cbv zeta beta.
  split; [|split; [|split; [|split]]];
    eexists; (split; [vm_compute; reflexivity|]); try reflexivity.
  split; [reflexivity|]. split; [reflexivity|]. split; [|reflexivity].
  cbn [map data pAlive fst snd].
  repeat (constructor; [reflexivity|]). constructor.
Qed.

(** C6, amended. In the two-vertex epidemic with [td = 1], [p = 1] and
    a ceiling of at least 5, whatever the draws: vertex 1 is healthy
    until the end of round 1, infected at the end of round 2, when
    vertex 0 is dead, still infected at the end of round 3, and dead at
    the end of round 4. The run returns after these five rounds, and
    its series records the proportions of alive vertices 1, 1, 1/2, 1/2
    and 0 for the rounds 0 to 4. *)
Theorem two_vertices_dead_by_round_4 :
  forall random nsteps,
    unit_interval random ->
    5 <= nsteps ->
    let update := EpidemicVertex_update random nsteps 1 1 1 in
    let after := fun t : nat =>
      rounds update (Some epidemic_stats) (S t) (mkEngine two_vertices 0 []) in
    (exists s, after 0%nat = Ok s /\ values (vertices s) = [1; 0])
    /\ (exists s, after 1%nat = Ok s /\ values (vertices s) = [2; 0])
    /\ (exists s, after 2%nat = Ok s /\ values (vertices s) = [-1; 1])
    /\ (exists s, after 3%nat = Ok s /\ values (vertices s) = [-1; 2])
    /\ (exists s,
          after 4%nat = Ok s
          /\ values (vertices s) = [-1; -1]
          /\ map (fun row : Stats => fst (fst row)) (data s) = [0; 1; 2; 3; 4]
          /\ Forall2 Qeq (map pAlive (data s)) [1; 1; 1 # 2; 1 # 2; 0]%Q
          /\ epidemic_pregel random nsteps 1 1 1 6 two_vertices 0 = Some (Ok s)).
Proof.
  intros random nsteps U N update after. subst after update. cbv beta.
  destruct two_vertices_certain_trace as (T0 & T1 & T2 & T3 & T4).
  cbv beta in T0, T1, T2, T3, T4.
  rewrite (two_vertices_rounds random nsteps 1 U N) by lia.
  rewrite (two_vertices_rounds random nsteps 2 U N) by lia.
  rewrite (two_vertices_rounds random nsteps 3 U N) by lia.
  rewrite (two_vertices_rounds random nsteps 4 U N) by lia.
  rewrite (two_vertices_rounds random nsteps 5 U N) by lia.
  split; [exact T0|]. split; [exact T1|]. split; [exact T2|].
  split; [exact T3|].
  destruct T4 as (s & E & Hv & Hs & Hp & Ha).
  exists s. split; [exact E|]. split; [exact Hv|]. split; [exact Hs|].
  split; [exact Hp|].
  pose proof (run_returns (EpidemicVertex_update random nsteps 1 1 1)
                (Some epidemic_stats) 5 (mkEngine two_vertices 0 [])) as R.
  rewrite (two_vertices_rounds random nsteps 5 U N), E in R by lia.
  exact (R Ha).
Qed.

Lemma two_vertices_dead_by_round_4_witness :
  let random := fun c : nat => (Z.of_nat c # Pos.of_nat (S c))%Q in
  unit_interval random
  /\ 5 <= 50
  /\ exists s,
       rounds (EpidemicVertex_update random 50 1 1 1) (Some epidemic_stats) 5
              (mkEngine two_vertices 0 []) = Ok s
       /\ values (vertices s) = [-1; -1]
       /\ map (fun row : Stats => fst (fst row)) (data s) = [0; 1; 2; 3; 4]
       /\ Forall2 Qeq (map pAlive (data s)) [1; 1; 1 # 2; 1 # 2; 0]%Q
       /\ epidemic_pregel random 50 1 1 1 6 two_vertices 0 = Some (Ok s).
Proof.
  intros random.
  assert (U : unit_interval random).
  { intros c. unfold random, Qle, Qlt. cbn [Qnum Qden]. split; lia. }
  assert (N : 5 <= 50) by discriminate.
  split; [exact U|]. split; [exact N|].
  exact (proj2 (proj2 (proj2 (proj2
           (two_vertices_dead_by_round_4 random 50 U N))))).
Defined.

(** ** Runs that return *)

Section Termination.

Context {V : Type}.
Variable update : Vertex V -> nat -> result (Vertex V * nat).
Variable stats_fn : option (Prog V Stats).
Variable G : Vertex V -> Prop.
Variable ceiling : Z.
Hypothesis stats_pure : pure_stats stats_fn.
Hypothesis stats_total : total_stats stats_fn.
Hypothesis update_returns :
  forall v c, G v -> exists u c', update v c = Ok (u, c') /\ emits_along_edges v u.
Hypothesis round_keeps :
  forall s s', Forall G (vertices s) ->
               superstep_round update stats_fn s = Ok s' ->
               Forall G (vertices s').
Hypothesis update_halts :
  forall v, superstep v >= ceiling -> halting update v.

Lemma update_active_returns : forall (vs : list (Vertex V)) (c : nat),
  Forall G vs ->
  exists vs1 c1,
    update_active update vs c = Ok (vs1, c1)
    /\ Forall2 (fun v u => emits_along_edges v u) vs vs1.
Proof.
  induction vs as [|v vs IH]; intros c F.
  - exists [], c. split; [reflexivity | constructor].
  - inversion F as [|? ? Gv Gvs]; subst. cbn [update_active].
    destruct (active v).
    + destruct (update_returns v c Gv) as (u & c' & -> & Eu). cbn [bind].
      destruct (IH c' Gvs) as (vs1 & c1 & -> & F2). cbn [bind].
      exists (u :: vs1), c1. split; [reflexivity | now constructor].
    + cbn [bind]. destruct (IH c Gvs) as (vs1 & c1 & -> & F2). cbn [bind].
      exists (v :: vs1), c1. split; [reflexivity|]. constructor; [|exact F2].
      unfold emits_along_edges. repeat split.
      apply Forall_forall. auto.
Qed.

Lemma deliverable_along_edges (n : nat) (t : Z) (vs vs1 : list (Vertex V)) :
  Forall (at_barrier n t) vs ->
  Forall2 (fun v u => emits_along_edges v u) vs vs1 ->
  Forall (fun u => forallb (fun m => (peer m <? n)%nat) (outgoing_messages u) = true)
         vs1.
Proof.
  intros B F. induction F as [|v u vs vs1 (Eo & _ & Em) F IH]; constructor;
    inversion B as [|? ? (_ & Bo & Be) B']; subst; [|now apply IH].
  apply forallb_forall. intros m Hm. apply Nat.ltb_lt.
  rewrite Forall_forall in Em, Be.
  destruct (Em m Hm) as [Hp|Ho]; [now apply Be|].
  rewrite Bo in Ho. contradiction.
Qed.

Lemma barrier_round (t : Z) (s : Engine V) :
  barrier t s ->
  Forall G (vertices s) ->
  check_active (vertices s) = true ->
  exists s',
    superstep_round update stats_fn s = Ok s'
    /\ barrier (t + 1) s'
    /\ Forall G (vertices s').
Proof.
  intros B HG Ha.
  destruct (update_active_returns (vertices s) (cursor s) HG)
    as (vs1 & c1 & E1 & F1).
  pose proof (Forall2_length F1) as L1.
  assert (D : deliverable vs1 = true).
  { unfold deliverable. apply forallb_forall. rewrite <- L1.
    apply Forall_forall. exact (deliverable_along_edges _ _ _ _ B F1). }
  assert (N : exists w ws, clear_outgoing (deliver 0 (emitted 0 vs1) vs1) = w :: ws).
  { destruct vs1 as [|u us].
    - inversion F1 as [E0|]. rewrite <- E0 in Ha. discriminate Ha.
    - cbn. eauto. }
  destruct N as (w & ws & N).
  assert (E : exists s', superstep_round update stats_fn s = Ok s').
  { unfold superstep_round, redistribute_messages, collect.
    rewrite E1. cbn [bind]. rewrite D. cbn [bind]. rewrite N.
    destruct stats_fn as [f|] eqn:Ef.
    - destruct (stats_total f eq_refl w ws) as (row & ->). cbn [bind]. eauto.
    - cbn [bind]. eauto. }
  destruct E as (s' & E). exists s'. split; [exact E|].
  split; [|exact (round_keeps s s' HG E)].
  destruct (superstep_round_inv update stats_fn stats_pure s s' E)
    as (vs2 & H1 & H2 & _).
  unfold barrier in *.
  rewrite <- (Forall2_length H2), <- (Forall2_length H1).
  assert (B1 : Forall (fun u => superstep u = t
                               /\ Forall (fun x => (x < List.length (vertices s))%nat)
                                         (out_vertices u)) vs2).
  { eapply Forall2_transport; [|exact (Forall_and HG B)|exact H1].
    cbn beta. intros v u [Gv (Bs & _ & Be)] St. unfold stepped in St.
    destruct (active v); [|now subst u].
    destruct St as (c & c' & Eu).
    destruct (update_returns v c Gv) as (u' & c'' & Eu' & Eo & Es & _).
    rewrite Eu in Eu'. injection Eu' as <- _.
    rewrite Eo, Es. auto. }
  eapply Forall2_transport; [|exact B1|exact H2].
  cbn beta. intros u v' [Bs Be] (_ & _ & Eo & _ & Es & Eout & _).
  unfold at_barrier. rewrite Es, Eo, Bs. auto.
Qed.

Lemma barrier_run : forall (m : nat) (t : Z) (s : Engine V),
  barrier t s ->
  Forall G (vertices s) ->
  t + Z.of_nat m >= ceiling ->
  exists s', run update stats_fn (m + 2) s = Some (Ok s')
             /\ check_active (vertices s') = false.
Proof.
  induction m as [|m IH]; intros t s B HG T.
  - cbn [Nat.add run].
    destruct (check_active (vertices s)) eqn:Ha; [|eauto].
    destruct (barrier_round t s B HG Ha) as (s1 & E1 & B1 & G1). rewrite E1.
    assert (H : Forall (halting update) (vertices s)).
    { unfold barrier in B. eapply Forall_impl; [|exact B].
      intros v (Bs & _). apply update_halts. lia. }
    destruct (halting_round update stats_fn stats_pure s s1 H E1) as [F _].
    assert (K : check_active (vertices s1) = false).
    { clear - F. unfold check_active.
      induction F as [|v v' l l' (A1 & _) F IH]; cbn; [auto|].
      now rewrite A1, IH. }
    rewrite K. eauto.
  - change (S m + 2)%nat with (S (m + 2)). cbn [run].
    destruct (check_active (vertices s)) eqn:Ha; [|eauto].
    destruct (barrier_round t s B HG Ha) as (s1 & E1 & B1 & G1). rewrite E1.
    apply (IH (t + 1) s1 B1 G1). lia.
Qed.

End Termination.

Lemma EpidemicVertex_update_returns random nsteps p i td
      (v : Vertex Z) (c : nat) :
  exists (u : Vertex Z) (c' : nat),
    EpidemicVertex_update random nsteps p i td v c = Ok (u, c')
    /\ emits_along_edges v u.
Proof.
  assert (K : forall w : Vertex Z,
             out_vertices w = out_vertices v -> superstep w = superstep v ->
             outgoing_messages w = outgoing_messages v ->
             emits_along_edges v w).
  { intros w E1 E2 E3. unfold emits_along_edges. rewrite E1, E2, E3.
    repeat split. apply Forall_forall. auto. }
  unfold EpidemicVertex_update.
  destruct (superstep v =? 0).
  - destruct (id v <? i); eexists _, _; (split; [reflexivity|]);
      now apply K.
  - destruct (superstep v <? nsteps).
    + destruct (value v =? -1);
        [eexists _, _; split; [reflexivity | now apply K]|].
      destruct (value v >? 0).
      * destruct (value v <=? td); eexists _, _; (split; [reflexivity|]);
          [|now apply K].
        unfold emits_along_edges. cbn. repeat split.
        apply Forall_forall. intros m Hm. apply in_map_iff in Hm.
        destruct Hm as (x & <- & Hx). now left.
      * rewrite infection_trials_spec. eexists _, _. split; [reflexivity|].
        destruct (some_success _); now apply K.
    + eexists _, _. split; [reflexivity | now apply K].
Qed.

(** Every run of the epidemic over a well-formed graph returns: with
    [max nsteps 1 + 2] units of fuel the loop stops, without an error
    and without an active vertex. *)
Theorem epidemic_pregel_returns :
  forall random nsteps p i td (vs : list (Vertex Z)) (c : nat),
    barrier 0 (mkEngine vs c []) ->
    exists s' : Engine Z,
      epidemic_pregel random nsteps p i td
                      (Z.to_nat (Z.max nsteps 1) + 2) vs c = Some (Ok s')
      /\ check_active (vertices s') = false.
Proof.
  intros random nsteps p i td vs c B. unfold epidemic_pregel.
  apply (barrier_run (EpidemicVertex_update random nsteps p i td)
           (Some epidemic_stats) (fun _ => True) (Z.max nsteps 1)
           pure_epidemic_stats total_epidemic_stats) with (t := 0).
  - intros v c0 _. apply EpidemicVertex_update_returns.
  - intros s s' _ _. apply Forall_forall. auto.
  - intros v Ge. apply EpidemicVertex_update_at_ceiling; lia.
  - exact B.
  - apply Forall_forall. auto.
  - lia.
Qed.

Lemma contacts_along_edges random a (val : string) (outs : list nat) :
  forall c : nat,
    Forall (fun m => In (peer m) outs) (fst (contacts random a outs val c)).
Proof.
  induction outs as [|v outs IH]; intros c; cbn; [constructor|].
  specialize (IH (S c)). destruct (contacts random a outs val (S c)) as [ms c'].
  cbn [fst] in IH.
  assert (IH' : Forall (fun m => v = peer m \/ In (peer m) outs) ms).
  { eapply Forall_impl; [|exact IH]. cbn beta. auto. }
  destruct (Qltb (random c) a); cbn [fst]; [constructor|]; auto.
Qed.

Lemma SocialVertex_update_returns random nsteps sp a
      (v : Vertex string) (c : nat) :
  well_labelled v ->
  exists (u : Vertex string) (c' : nat),
    SocialVertex_update random nsteps sp a v c = Ok (u, c')
    /\ emits_along_edges v u.
Proof.
  intros W.
  destruct (SocialVertex_update_well_labelled random nsteps sp a v c W)
    as (u & c' & E & _). exists u, c'. split; [exact E|].
  unfold SocialVertex_update in E.
  assert (K : forall (w : Vertex string) (c1 : nat),
             out_vertices w = out_vertices v -> superstep w = superstep v ->
             (let '(ms, c2) := contacts random a (out_vertices w) (value w) c1 in
              Ok (set_outgoing_messages w ms, c2)) = Ok (u, c') ->
             emits_along_edges v u).
  { intros w c1 E1 E2 Eu.
    pose proof (contacts_along_edges random a (value w) (out_vertices w) c1) as C.
    destruct (contacts random a (out_vertices w) (value w) c1) as [ms c2].
    injection Eu as <- _. cbn [fst] in C. unfold emits_along_edges. cbn.
    rewrite E1 in *. repeat split; [exact E2|].
    eapply Forall_impl; [|exact C]. cbn beta. auto. }
  destruct (superstep v <? nsteps).
  - destruct (value v =? "M")%string; cbn [bind] in E.
    + exact (K v c eq_refl eq_refl E).
    + destruct (count_friends _ 0 0) as [[f m]|e]; cbn [bind] in E;
        [|discriminate].
      destruct (switch random sp f m c) as [[|] c1]; cbn [bind] in E.
      * exact (K (set_value v "M"%string) c1 eq_refl eq_refl E).
      * exact (K v c1 eq_refl eq_refl E).
  - injection E as <- _. unfold emits_along_edges. cbn. repeat split.
    apply Forall_forall. auto.
Qed.

(** Every run of the platform-switch simulation over a well-formed
    graph, started on platform labels, returns: with [nsteps + 2] units
    of fuel the loop stops, without an error and without an active
    vertex. *)
Theorem social_pregel_returns :
  forall random nsteps sp a (vs : list (Vertex string)) (c : nat),
    barrier 0 (mkEngine vs c []) ->
    Forall well_labelled vs ->
    exists s' : Engine string,
      social_pregel random nsteps sp a (Z.to_nat nsteps + 2) vs c = Some (Ok s')
      /\ check_active (vertices s') = false.
Proof.
  intros random nsteps sp a vs c B W. unfold social_pregel.
  apply (barrier_run (SocialVertex_update random nsteps sp a)
           (Some social_stats) well_labelled nsteps
           pure_social_stats total_social_stats) with (t := 0).
  - intros v c0 Wv. now apply SocialVertex_update_returns.
  - intros s s' Ws E.
    pose proof (social_round_well_labelled random nsteps sp a s Ws) as H.
    now rewrite E in H.
  - intros v Ge. now apply SocialVertex_update_at_ceiling.
  - exact B.
  - exact W.
  - lia.
Qed.

(** * Further properties of the notebooks' code *)

(** ** The random graph *)

Lemma set_out_vertices_same {V : Type} (v : Vertex V) :
  set_out_vertices v (out_vertices v) = v.
Proof. now destruct v. Qed.

Lemma choose_neighbours_filter random pn (j : nat) (us : list nat) :
  NoDup us ->
  forall (outs : list nat) (c : nat),
    exists f : nat -> bool,
      f j = false
      /\ (forall u, f u = true -> In u us)
      /\ choose_neighbours random pn j us outs c
         = (outs ++ filter f us,
            (c + List.length (filter (fun u => negb (j =? u)%nat) us))%nat).
Proof.
  induction us as [|u rest IH]; intros N outs c.
  - exists (fun _ => false). cbn. rewrite app_nil_r, Nat.add_0_r.
    repeat split. discriminate.
  - inversion N as [|? ? Hu N']; subst. cbn [choose_neighbours filter].
    destruct (Nat.eqb_spec j u) as [E|NE]; cbn [negb].
    + destruct (IH N' outs c) as (f & Fj & Fin & ->). exists f.
      assert (Fu : f u = false).
      { subst u. exact Fj. }
      rewrite Fu. repeat split; auto. intros x Hx. right. auto.
    + cbn [List.length]. rewrite Nat.add_succ_r.
      destruct (Qltb (random c) pn).
      * destruct (IH N' (outs ++ [u]) (S c)) as (f & Fj & Fin & ->).
        exists (fun x => (x =? u)%nat || f x).
        assert (Fu : f u = false).
        { destruct (f u) eqn:Fu; [|reflexivity]. elim Hu. now apply Fin. }
        rewrite Nat.eqb_refl. cbn [orb]. split; [|split].
        -- rewrite Fj. destruct (Nat.eqb_spec j u); [contradiction|reflexivity].
        -- intros x Hx. apply orb_true_iff in Hx. destruct Hx as [Hx|Hx].
           ++ apply Nat.eqb_eq in Hx. now left.
           ++ right. auto.
        -- rewrite <- app_assoc. cbn [app]. do 3 f_equal.
           apply filter_ext_in. intros x Hx.
           destruct (Nat.eqb_spec x u) as [->|_]; [contradiction|reflexivity].
      * destruct (IH N' outs (S c)) as (f & Fj & Fin & ->). exists f.
        assert (Fu : f u = false).
        { destruct (f u) eqn:Fu; [|reflexivity]. elim Hu. now apply Fin. }
        rewrite Fu. repeat split; auto. intros x Hx. right. auto.
Qed.

Lemma filter_all {A : Type} (f : A -> bool) (l : list A) :
  (forall x, In x l -> f x = true) -> filter f l = l.
Proof.
  induction l as [|x l IH]; intros H; [reflexivity|]. cbn.
  rewrite (H x (or_introl eq_refl)). f_equal. apply IH. intros; apply H; now right.
Qed.

Lemma others_count (n j : nat) :
  (j < n)%nat ->
  List.length (filter (fun u => negb (j =? u)%nat) (seq 0 n)) = (n - 1)%nat.
Proof.
  intros L. replace n with (j + S (n - j - 1))%nat at 1 by lia.
  rewrite seq_app. cbn [seq]. rewrite filter_app. cbn [filter Nat.add].
  rewrite Nat.eqb_refl. cbn [negb].
  rewrite !filter_all, length_app, !length_seq; [lia| |].
  - intros x Hx. apply in_seq in Hx.
    destruct (Nat.eqb_spec j x); [lia|reflexivity].
  - intros x Hx. apply in_seq in Hx.
    destruct (Nat.eqb_spec j x); [lia|reflexivity].
Qed.

Lemma create_edges_from_spec random pn {V : Type} (n : nat) :
  forall (vs : list (Vertex V)) (j c : nat),
    (j + List.length vs = n)%nat ->
    snd (create_edges_from random pn n j vs c)
    = (c + List.length vs * (n - 1))%nat
    /\ Forall2 (fun v v' => exists k added,
                    added_neighbours n k added
                    /\ v' = set_out_vertices v (out_vertices v ++ added))
               vs (fst (create_edges_from random pn n j vs c))
    /\ forall (k : nat) (v : Vertex V),
         nth_error vs k = Some v ->
         exists added,
           added_neighbours n (j + k) added
           /\ nth_error (fst (create_edges_from random pn n j vs c)) k
              = Some (set_out_vertices v (out_vertices v ++ added)).
Proof.
  induction vs as [|v vs IH]; intros j c L.
  - cbn. split; [lia|]. split; [constructor|]. intros [|k] v E; discriminate E.
  - cbn [create_edges_from List.length] in *.
    destruct (choose_neighbours_filter random pn j (seq 0 n) (seq_NoDup n 0)
                (out_vertices v) c) as (f & Fj & _ & ->).
    rewrite others_count by lia.
    destruct (IH (S j) (c + (n - 1))%nat ltac:(lia)) as (I1 & I2 & I3).
    destruct (create_edges_from random pn n (S j) vs (c + (n - 1))%nat)
      as [rest' c''].
    cbn [fst snd] in *. split; [lia|]. split.
    + constructor; [|exact I2].
      exists j, (filter f (seq 0 n)). split; [|reflexivity]. exists f. auto.
    + intros [|k] w E; cbn in E.
      * injection E as <-. exists (filter f (seq 0 n)). split.
        -- exists f. rewrite Nat.add_0_r. auto.
        -- reflexivity.
      * destruct (I3 k w E) as (added & A & Hk). exists added.
        rewrite Nat.add_succ_r. auto.
Qed.

Lemma added_neighbours_facts (n j : nat) (added : list nat) :
  added_neighbours n j added ->
  ~ In j added /\ NoDup added /\ Forall (fun u => (u < n)%nat) added.
Proof.
  intros (f & Fj & ->). split; [|split].
  - intros H. apply filter_In in H. destruct H as [_ H]. congruence.
  - apply NoDup_filter, seq_NoDup.
  - apply Forall_forall. intros u H. apply filter_In in H.
    destruct H as [H _]. apply in_seq in H. lia.
Qed.

(** X3. [create_edges] leaves every vertex as it is but for its
    neighbour list, to which it appends: for the vertex at position [j]
    of [n], some of the positions below [n], each at most once, in
    increasing order, and never [j] itself (no self-loop, no duplicate
    edge, no dangling reference). It makes [n * (n - 1)] draws, one per
    ordered pair of distinct vertices. *)
Theorem create_edges_appends_other_vertices :
  forall random pn (V : Type) (vertices : list (Vertex V)) (c : nat),
    let n := List.length vertices in
    let after := fst (create_edges random pn vertices c) in
    snd (create_edges random pn vertices c) = (c + n * (n - 1))%nat
    /\ List.length after = n
    /\ forall (j : nat) (v : Vertex V),
         nth_error vertices j = Some v ->
         exists added : list nat,
           nth_error after j = Some (set_out_vertices v (out_vertices v ++ added))
           /\ added_neighbours n j added
           /\ ~ In j added
           /\ NoDup added
           /\ Forall (fun u => (u < n)%nat) added.
Proof.
  intros random pn V vertices c n after. subst after. unfold create_edges.
  destruct (create_edges_from_spec random pn n vertices 0 c eq_refl)
    as (S1 & S2 & S3).
  split; [exact S1|]. split; [symmetry; exact (Forall2_length S2)|].
  intros j v E. destruct (S3 j v E) as (added & A & Hj). cbn [Nat.add] in A.
  exists added. split; [exact Hj|]. split; [exact A|].
  now apply added_neighbours_facts.
Qed.

Lemma create_edges_appends_other_vertices_witness :
  let vs := [ mkVertex 0 0 [] [] [] true 0 ;
              mkVertex 1 0 [] [] [] true 0 ;
              mkVertex 2 0 [] [] [] true 0 ] in
  let random := fun c : nat => if Nat.even c then 0%Q else (1 # 2)%Q in
  nth_error vs 1 = Some (mkVertex 1 0 [] [] [] true 0)
  /\ map out_vertices (fst (create_edges random (1 # 10) vs 0))
     = [[1%nat]; [0%nat]; [0%nat]]
  /\ exists added : list nat,
       nth_error (fst (create_edges random (1 # 10) vs 0)) 1
       = Some (set_out_vertices (mkVertex 1 0 [] [] [] true 0) ([] ++ added))
       /\ added_neighbours 3 1 added
       /\ ~ In 1%nat added
       /\ NoDup added
       /\ Forall (fun u => (u < 3)%nat) added.
Proof.
  intros vs random.
  split; [reflexivity|]. split; [reflexivity|].
  exact (proj2 (proj2 (create_edges_appends_other_vertices
                         random (1 # 10) Z vs 0%nat))
           1%nat (mkVertex 1 0 [] [] [] true 0) eq_refl).
Defined.

Lemma choose_neighbours_constant random pn (b : bool) (j : nat) :
  (forall c, Qltb (random c) pn = b) ->
  forall (us outs : list nat) (c : nat),
    fst (choose_neighbours random pn j us outs c)
    = outs ++ (if b then filter (fun u => negb (j =? u)%nat) us else []).
Proof.
  intros H. induction us as [|u rest IH]; intros outs c; cbn [choose_neighbours filter].
  - now destruct b; rewrite app_nil_r.
  - destruct (j =? u)%nat; cbn [negb]; [apply IH|].
    rewrite (H c). destruct b; rewrite IH; [|reflexivity].
    now rewrite <- app_assoc.
Qed.

Lemma create_edges_from_constant random pn (b : bool) {V : Type} (n : nat) :
  (forall c, Qltb (random c) pn = b) ->
  forall (vs : list (Vertex V)) (j c : nat) (k : nat) (v : Vertex V),
    nth_error vs k = Some v ->
    nth_error (fst (create_edges_from random pn n j vs c)) k
    = Some (set_out_vertices v
              (out_vertices v
               ++ (if b then filter (fun u => negb (j + k =? u)%nat) (seq 0 n)
                   else []))).
Proof.
  intros H. induction vs as [|w vs IH]; intros j c k v E; [now destruct k|].
  cbn [create_edges_from].
  pose proof (choose_neighbours_constant random pn b j H (seq 0 n)
                (out_vertices w) c) as C.
  destruct (choose_neighbours random pn j (seq 0 n) (out_vertices w) c)
    as [outs c'].
  cbn [fst] in C. subst outs.
  specialize (IH (S j) c').
  destruct (create_edges_from random pn n (S j) vs c') as [rest' c''].
  cbn [fst] in *. destruct k as [|k]; cbn in E |- *.
  - injection E as <-. now rewrite Nat.add_0_r.
  - rewrite Nat.add_succ_r. now apply IH.
Qed.

(** X4. The two extremes of [create_edges], for draws in [[0, 1)]:
    with [pn >= 1] it builds the complete graph, every vertex getting
    every other position, in order; with [pn <= 0] it adds no edge and
    returns the vertices as they were. *)
Theorem create_edges_extremes :
  forall random pn (V : Type) (vertices : list (Vertex V)) (c : nat),
    unit_interval random ->
    let n := List.length vertices in
    let after := fst (create_edges random pn vertices c) in
    ((1 <= pn)%Q ->
     forall (j : nat) (v : Vertex V),
       nth_error vertices j = Some v ->
       nth_error after j
       = Some (set_out_vertices v
                 (out_vertices v
                  ++ filter (fun u => negb (j =? u)%nat) (seq 0 n))))
    /\ ((pn <= 0)%Q -> after = vertices).
Proof.
  intros random pn V vertices c U n after. subst after. split.
  - intros P j v E.
    assert (H : forall c0, Qltb (random c0) pn = true).
    { intros c0. apply Qltb_lt. eapply Qlt_le_trans; [apply U | exact P]. }
    exact (create_edges_from_constant random pn true n H vertices 0 c j v E).
  - intros P.
    assert (H : forall c0, Qltb (random c0) pn = false).
    { intros c0. destruct (Qltb (random c0) pn) eqn:E; [|reflexivity].
      apply Qltb_lt in E. exfalso.
      apply (Qlt_irrefl 0). eapply Qle_lt_trans; [apply (U c0)|].
      eapply Qlt_le_trans; [exact E | exact P]. }
    apply nth_error_ext. intros k. unfold create_edges. fold n.
    destruct (nth_error vertices k) as [v|] eqn:E.
    + rewrite (create_edges_from_constant random pn false n H vertices 0 c k v E).
      now rewrite app_nil_r, set_out_vertices_same.
    + apply nth_error_None. apply nth_error_None in E.
      destruct (create_edges_from_spec random pn n vertices 0 c eq_refl)
        as (_ & S2 & _).
      rewrite <- (Forall2_length S2). exact E.
Qed.

Lemma create_edges_extremes_witness :
  let vs := [ mkVertex 0 0 [] [] [] true 0 ;
              mkVertex 1 0 [] [] [] true 0 ;
              mkVertex 2 0 [] [] [] true 0 ] in
  let random := fun c : nat => (Z.of_nat c # Pos.of_nat (S c))%Q in
  unit_interval random
  /\ (1 <= 1)%Q
  /\ (0 <= 0)%Q
  /\ nth_error (fst (create_edges random 1 vs 0)) 1
     = Some (mkVertex 1 0 [0%nat; 2%nat] [] [] true 0)
  /\ fst (create_edges random 0 vs 0) = vs.
Proof.
  intros vs random.
  assert (U : unit_interval random).
  { intros c. unfold random, Qle, Qlt. cbn [Qnum Qden]. split; lia. }
  split; [exact U|]. split; [apply Qle_refl|]. split; [apply Qle_refl|]. split.
  - exact (proj1 (create_edges_extremes random 1 Z vs 0%nat U) (Qle_refl 1)
             1%nat (mkVertex 1 0 [] [] [] true 0) eq_refl).
  - exact (proj2 (create_edges_extremes random 0 Z vs 0%nat U) (Qle_refl 0)).
Defined.

(** ** What an update writes *)

Lemma infection_trials_frame random p (msgs : list Message) (self : Vertex Z)
      (c : nat) :
  let u := fst (infection_trials random p msgs self c) in
  id u = id self /\ out_vertices u = out_vertices self
  /\ incoming_messages u = incoming_messages self
  /\ outgoing_messages u = outgoing_messages self
  /\ superstep u = superstep self /\ active u = active self
  /\ (value u = value self \/ value u = 1)
  /\ snd (infection_trials random p msgs self c) = (c + List.length msgs)%nat.
Proof.
  rewrite infection_trials_spec. cbn [fst snd].
  destruct (some_success _); cbn; auto 10.
Qed.

Lemma EpidemicVertex_update_frame random nsteps p i td
      (self u : Vertex Z) (c c' : nat) :
  EpidemicVertex_update random nsteps p i td self c = Ok (u, c') ->
  id u = id self /\ out_vertices u = out_vertices self
  /\ incoming_messages u = incoming_messages self
  /\ superstep u = superstep self
  /\ (active u = true -> active self = true)
  /\ (c <= c')%nat.
Proof.
  unfold EpidemicVertex_update. intros E.
  destruct (superstep self =? 0).
  - destruct (id self <? i); injection E as <- <-; cbn; auto 10.
  - destruct (superstep self <? nsteps).
    + destruct (value self =? -1);
        [injection E as <- <-; cbn; repeat split; auto; discriminate|].
      destruct (value self >? 0).
      * destruct (value self <=? td); injection E as <- <-; cbn;
          repeat split; auto; discriminate.
      * pose proof (infection_trials_frame random p (incoming_messages self)
                      self c) as F. cbn zeta in F.
        destruct (infection_trials random p _ self c) as [w c1].
        injection E as <- <-. cbn [fst snd] in F.
        destruct F as (F1 & F2 & F3 & _ & F5 & F6 & _ & F8).
        repeat split; auto; [congruence | lia].
    + injection E as <- <-. cbn. repeat split; auto. discriminate.
Qed.

Lemma contacts_cursor random a (val : string) (outs : list nat) : forall c : nat,
  snd (contacts random a outs val c) = (c + List.length outs)%nat.
Proof.
  induction outs as [|v outs IH]; intros c; cbn; [lia|].
  specialize (IH (S c)). destruct (contacts random a outs val (S c)) as [ms c'].
  cbn [snd] in IH. destruct (Qltb (random c) a); cbn [snd]; lia.
Qed.

Lemma SocialVertex_update_frame random nsteps sp a
      (self u : Vertex string) (c c' : nat) :
  SocialVertex_update random nsteps sp a self c = Ok (u, c') ->
  id u = id self /\ out_vertices u = out_vertices self
  /\ incoming_messages u = incoming_messages self
  /\ superstep u = superstep self
  /\ (active u = true -> active self = true)
  /\ (c <= c')%nat.
Proof.
  unfold SocialVertex_update. intros E.
  assert (K : forall (w : Vertex string) (c1 : nat),
             (c <= c1)%nat ->
             id w = id self -> out_vertices w = out_vertices self ->
             incoming_messages w = incoming_messages self ->
             superstep w = superstep self -> active w = active self ->
             (let '(ms, c2) := contacts random a (out_vertices w) (value w) c1 in
              Ok (set_outgoing_messages w ms, c2)) = Ok (u, c') ->
             id u = id self /\ out_vertices u = out_vertices self
             /\ incoming_messages u = incoming_messages self
             /\ superstep u = superstep self
             /\ (active u = true -> active self = true)
             /\ (c <= c')%nat).
  { intros w c1 Lc E1 E2 E3 E4 E5 Eu.
    pose proof (contacts_cursor random a (value w) (out_vertices w) c1) as C.
    destruct (contacts random a (out_vertices w) (value w) c1) as [ms c2].
    injection Eu as <- <-. cbn [snd] in C. cbn.
    repeat split; auto; [congruence | lia]. }
  destruct (superstep self <? nsteps).
  - destruct (value self =? "M")%string; cbn [bind] in E.
    + now apply (K self c).
    + destruct (count_friends _ 0 0) as [[f m]|e]; cbn [bind] in E;
        [|discriminate].
      rewrite switch_decided_by_one_draw in E.
      destruct (m >? f); [destruct (Qltb (random c) sp)|]; cbn [bind] in E.
      * apply (K (set_value self "M"%string) (S c)); auto.
      * apply (K self (S c)); auto.
      * now apply (K self c).
  - injection E as <- <-. cbn. repeat split; auto. discriminate.
Qed.

(** X5. Either update rule writes only the vertex's value, activity
    flag and outgoing buffer: the id, the neighbour list, the incoming
    buffer and the superstep are returned as they were. It never turns
    an inactive vertex active, and it only moves the cursor of the random
    source forward. *)
Theorem update_writes_value_active_outgoing :
  (forall random nsteps p i td (self u : Vertex Z) (c c' : nat),
      EpidemicVertex_update random nsteps p i td self c = Ok (u, c') ->
      id u = id self /\ out_vertices u = out_vertices self
      /\ incoming_messages u = incoming_messages self
      /\ superstep u = superstep self
      /\ (active u = true -> active self = true)
      /\ (c <= c')%nat)
  /\ (forall random nsteps sp a (self u : Vertex string) (c c' : nat),
        SocialVertex_update random nsteps sp a self c = Ok (u, c') ->
        id u = id self /\ out_vertices u = out_vertices self
        /\ incoming_messages u = incoming_messages self
        /\ superstep u = superstep self
        /\ (active u = true -> active self = true)
        /\ (c <= c')%nat).
Proof.
  split.
  - intros random nsteps p i td self u c c'.
    apply EpidemicVertex_update_frame.
  - intros random nsteps sp a self u c c'.
    apply SocialVertex_update_frame.
Qed.

Lemma update_writes_value_active_outgoing_witness :
  let self := mkVertex 3 "F"%string [0%nat; 1%nat]
                       [(0%nat, 1, "M"%string)] [] true 2 in
  let u := mkVertex 3 "M"%string [0%nat; 1%nat]
                    [(0%nat, 1, "M"%string)]
                    [(0%nat, 1, "M"%string); (1%nat, 1, "M"%string)] true 2 in
  SocialVertex_update (fun _ => 0%Q) 30 (9 # 10) (4 # 10) self 0 = Ok (u, 3%nat)
  /\ id u = id self /\ out_vertices u = out_vertices self
  /\ incoming_messages u = incoming_messages self
  /\ superstep u = superstep self
  /\ (active u = true -> active self = true)
  /\ (0 <= 3)%nat.
Proof.
  intros self u.
  assert (E : SocialVertex_update (fun _ => 0%Q) 30 (9 # 10) (4 # 10) self 0
              = Ok (u, 3%nat)) by reflexivity.
  split; [exact E|].
  exact (proj2 update_writes_value_active_outgoing
           (fun _ => 0%Q) 30 (9 # 10) (4 # 10) self u 0%nat 3%nat E).
Defined.

(** ** The course of an infection *)

(** X6. With a non-negative incubation length, an epidemic update
    keeps the value within [-1 .. td + 1]: from a value in that range
    it returns a value in that range, at every superstep. *)
Theorem epidemic_value_stays_in_range :
  forall random nsteps p i td (self u : Vertex Z) (c c' : nat),
    0 <= td ->
    -1 <= value self <= td + 1 ->
    EpidemicVertex_update random nsteps p i td self c = Ok (u, c') ->
    -1 <= value u <= td + 1.
Proof.
  intros random nsteps p i td self u c c' Htd Hv E.
  unfold EpidemicVertex_update in E.
  destruct (superstep self =? 0).
  - destruct (id self <? i); injection E as <- <-; cbn; lia.
  - destruct (superstep self <? nsteps).
    + destruct (Z.eqb_spec (value self) (-1));
        [injection E as <- <-; cbn; lia|].
      destruct (Z.gtb_spec (value self) 0).
      * destruct (Z.leb_spec (value self) td); injection E as <- <-; cbn; lia.
      * pose proof (infection_trials_frame random p (incoming_messages self)
                      self c) as F. cbn zeta in F.
        destruct (infection_trials random p _ self c) as [w c1].
        injection E as <- <-. cbn [fst] in F.
        destruct F as (_ & _ & _ & _ & _ & _ & [F|F] & _); lia.
    + injection E as <- <-. cbn. lia.
Qed.

Lemma epidemic_value_stays_in_range_witness :
  let self := mkVertex 0 3 [1%nat] [] [] true 7 in
  0 <= 3
  /\ -1 <= value self <= 3 + 1
  /\ exists (u : Vertex Z) (c' : nat),
       EpidemicVertex_update (fun _ => 0%Q) 50 (1 # 10) 1 3 self 0 = Ok (u, c')
       /\ value u = 4
       /\ -1 <= value u <= 3 + 1.
Proof.
  intros self.
  assert (Htd : 0 <= 3) by discriminate.
  assert (Hv : -1 <= value self <= 3 + 1) by (cbn; lia).
  split; [exact Htd|]. split; [exact Hv|].
  eexists _, _. split; [reflexivity|]. split; [reflexivity|].
  exact (epidemic_value_stays_in_range (fun _ => 0%Q) 50 (1 # 10) 1 3 self
           _ 0%nat _ Htd Hv eq_refl).
Defined.

(** X7. Who emits, who draws and who dies in an epidemic update. Only
    a vertex infected within its incubation window, at a superstep from
    1 to below the ceiling, writes its outgoing buffer; only a vertex
    that is neither infected nor dead, at such a superstep, draws, once
    per incoming message; a vertex whose value turns to -1 was infected
    past its window and is deactivated by the same update; a dead vertex
    past superstep 0 stays dead and is deactivated; and an infected
    vertex does not read its incoming buffer. *)
Theorem epidemic_update_roles :
  forall random nsteps p i td (self u : Vertex Z) (c c' : nat),
    EpidemicVertex_update random nsteps p i td self c = Ok (u, c') ->
    (outgoing_messages u = outgoing_messages self
     \/ (0 < value self <= td /\ superstep self <> 0 /\ superstep self < nsteps))
    /\ (c' = c
        \/ (value self <= 0 /\ value self <> -1
            /\ superstep self <> 0 /\ superstep self < nsteps
            /\ c' = (c + List.length (incoming_messages self))%nat))
    /\ (value self <> -1 -> value u = -1 ->
        active u = false /\ 0 < value self /\ td < value self)
    /\ (value self = -1 -> superstep self <> 0 ->
        value u = -1 /\ active u = false)
    /\ (0 < value self ->
        forall ms : list Message,
          EpidemicVertex_update random nsteps p i td
                                (set_incoming_messages self ms) c
          = Ok (set_incoming_messages u ms, c')).
Proof.
  intros random nsteps p i td self u c c' E.
  unfold EpidemicVertex_update in *. cbn [superstep id value set_incoming_messages
                                           out_vertices].
  destruct (Z.eqb_spec (superstep self) 0) as [E0|N0].
  - destruct (id self <? i); injection E as <- <-; cbn;
      (split; [now left|]); (split; [now left|]);
      (split; [intros; discriminate|]); (split; [contradiction|]);
      reflexivity.
  - destruct (Z.ltb_spec (superstep self) nsteps) as [Lt|Ge].
    + destruct (Z.eqb_spec (value self) (-1)) as [E1|N1].
      * injection E as <- <-. cbn.
        split; [now left|]. split; [now left|].
        split; [contradiction|]. split; [auto|]. lia.
      * destruct (Z.gtb_spec (value self) 0) as [G|G].
        -- destruct (Z.leb_spec (value self) td) as [Lw|Gw];
             injection E as <- <-; cbn.
           ++ split; [right; lia|]. split; [now left|].
              split; [lia|]. split; [contradiction|]. reflexivity.
           ++ split; [now left|]. split; [now left|].
              split; [intros; repeat split; lia|]. split; [contradiction|].
              reflexivity.
        -- pose proof (infection_trials_frame random p (incoming_messages self)
                         self c) as F. cbn zeta in F.
           destruct (infection_trials random p _ self c) as [w c1].
           injection E as <- <-. cbn [fst snd] in F.
           destruct F as (_ & _ & _ & F4 & _ & _ & Fv & F8).
           split; [now left|]. split; [right; repeat split; auto; lia|].
           split; [intros _ H; destruct Fv; lia|]. split; [contradiction|]. lia.
    + injection E as <- <-. cbn.
      split; [now left|]. split; [now left|].
      split; [intros N H; contradiction|]. split; [auto|]. reflexivity.
Qed.

Lemma epidemic_update_roles_witness :
  let self := mkVertex 0 2 [1%nat] [(1%nat, 1, "sneeze"%string)] [] true 4 in
  let u := mkVertex 0 (-1) [1%nat] [(1%nat, 1, "sneeze"%string)] [] false 4 in
  EpidemicVertex_update (fun _ => 0%Q) 50 1 1 1 self 0 = Ok (u, 0%nat)
  /\ value self <> -1 /\ value u = -1
  /\ active u = false /\ 0 < value self /\ 1 < value self.
Proof.
  intros self u.
  assert (E : EpidemicVertex_update (fun _ => 0%Q) 50 1 1 1 self 0
              = Ok (u, 0%nat)) by reflexivity.
  assert (N : value self <> -1) by discriminate.
  split; [exact E|]. split; [exact N|]. split; [reflexivity|].
  exact (proj1 (proj2 (proj2 (epidemic_update_roles
                                (fun _ => 0%Q) 50 1 1 1 self u 0%nat 0%nat E)))
           N eq_refl).
Defined.

(** ** Errors and messages of the platform-switch update *)

(** X8. The platform-switch update raises exactly when it is invoked
    below the ceiling on a vertex that is not on "M" and whose incoming
    buffer holds a payload other than "F" and "M"; the exception is then
    [ValueError], whatever the counts of "F" and "M". In particular a
    vertex on "M", which does not read its incoming buffer, and any
    vertex at the ceiling never raise. *)
Theorem SocialVertex_update_raises_iff :
  forall random nsteps sp a (self : Vertex string) (c : nat) (e : Error),
    SocialVertex_update random nsteps sp a self c = Raise e
    <-> (e = ValueError
         /\ superstep self < nsteps
         /\ value self <> "M"%string
         /\ ~ labels (incoming_messages self)).
Proof.
  intros random nsteps sp a self c e. unfold SocialVertex_update.
  destruct (Z.ltb_spec (superstep self) nsteps) as [Lt|Ge].
  - destruct (String.eqb_spec (value self) "M") as [EM|NM]; cbn [bind].
    + destruct (contacts random a _ _ c) as [ms c2].
      split; [discriminate | intros (_ & _ & N & _); contradiction].
    + destruct (labels_dec (incoming_messages self)) as [L|NL].
      * rewrite (count_friends_labels _ 0 0 L). cbn [bind].
        destruct (switch random sp _ _ c) as [[|] c1]; cbn [bind];
          destruct (contacts random a _ _ c1) as [ms c2];
          (split; [discriminate | intros (_ & _ & _ & N); contradiction]).
      * rewrite (count_friends_raises _ 0 0 NL). cbn [bind]. split.
        -- intros E. injection E as <-. auto.
        -- intros (-> & _). reflexivity.
  - split; [discriminate | intros (_ & L & _); lia].
Qed.

Lemma SocialVertex_update_raises_iff_witness :
  let self := mkVertex 1 "F"%string [0%nat]
                       [(0%nat, 1, "M"%string); (0%nat, 1, "sneeze"%string)]
                       [] true 1 in
  SocialVertex_update (fun _ => 0%Q) 30 (9 # 10) (4 # 10) self 0
  = Raise ValueError
  /\ SocialVertex_update (fun _ => 0%Q) 30 (9 # 10) (4 # 10)
                         (set_value self "M"%string) 0
     <> Raise ValueError.
Proof.
  intros self. split.
  - apply (proj2 (SocialVertex_update_raises_iff
                    (fun _ => 0%Q) 30 (9 # 10) (4 # 10) self 0%nat ValueError)).
    split; [reflexivity|]. split; [reflexivity|]. split; [discriminate|].
    intros L. inversion L as [|? ? _ L']; subst.
    inversion L' as [|? ? [H|H] _]; discriminate H.
  - intros E.
    apply (proj1 (SocialVertex_update_raises_iff
                    (fun _ => 0%Q) 30 (9 # 10) (4 # 10)
                    (set_value self "M"%string) 0%nat ValueError)) in E.
    destruct E as (_ & _ & N & _). now apply N.
Defined.

Lemma contacts_selected random a (val : string) (outs : list nat) :
  forall c : nat,
    contacts random a outs val c
    = (map (fun v => (v, 1, val))
           (selected (trials random a c (List.length outs)) outs),
       (c + List.length outs)%nat).
Proof.
  induction outs as [|v outs IH]; intros c.
  - cbn. now rewrite Nat.add_0_r.
  - cbn [contacts List.length]. rewrite IH, trials_S, Nat.add_succ_r.
    cbn [selected]. now destruct (Qltb (random c) a).
Qed.

Lemma selected_all {A : Type} (bs : list bool) (l : list A) :
  List.length bs = List.length l ->
  Forall (fun b => b = true) bs -> selected bs l = l.
Proof.
  revert l. induction bs as [|b bs IH]; intros [|x l] L F; try discriminate L;
    [reflexivity|].
  inversion F as [|? ? Hb F']; subst. cbn. f_equal. apply IH; auto.
Qed.

Lemma selected_none {A : Type} (bs : list bool) (l : list A) :
  Forall (fun b => b = false) bs -> selected bs l = [].
Proof.
  revert l. induction bs as [|b bs IH]; intros [|x l] F; try reflexivity.
  inversion F as [|? ? Hb F']; subst. cbn. now apply IH.
Qed.

Lemma trials_constant random q (b : bool) (c k : nat) :
  (forall c0, Qltb (random c0) q = b) ->
  Forall (fun x => x = b) (trials random q c k).
Proof.
  intros H. unfold trials. apply Forall_forall. intros x Hx.
  apply in_map_iff in Hx. destruct Hx as (j & <- & _). apply H.
Qed.

Lemma trials_length random q (c k : nat) :
  List.length (trials random q c k) = k.
Proof. unfold trials. now rewrite length_map, length_seq. Qed.

(** X9. Below the ceiling, a platform-switch update that returns
    leaves in the outgoing buffer one message per neighbour whose draw
    is below [a], in the order of the neighbour list, each of weight 1
    and carrying the value the vertex has after the update (so a vertex
    that switches announces "M" in the same round). It makes one draw per
    neighbour, after the one [switch] may have made. For draws in
    [[0, 1)], an activity [a >= 1] reaches every neighbour and an
    activity [a <= 0] reaches none. *)
Theorem SocialVertex_update_contacts :
  forall random nsteps sp a (self u : Vertex string) (c c' : nat),
    superstep self < nsteps ->
    SocialVertex_update random nsteps sp a self c = Ok (u, c') ->
    let n := List.length (out_vertices self) in
    (exists c1 : nat,
        (c1 = c \/ (c1 = S c /\ value self <> "M"%string))
        /\ c' = (c1 + n)%nat
        /\ outgoing_messages u
           = map (fun v => (v, 1, value u))
                 (selected (trials random a c1 n) (out_vertices self)))
    /\ (unit_interval random -> (1 <= a)%Q ->
        outgoing_messages u = map (fun v => (v, 1, value u)) (out_vertices self))
    /\ (unit_interval random -> (a <= 0)%Q -> outgoing_messages u = []).
Proof.
  intros random nsteps sp a self u c c' Lt E n.
  assert (M : exists c1 : nat,
             (c1 = c \/ (c1 = S c /\ value self <> "M"%string))
             /\ c' = (c1 + n)%nat
             /\ outgoing_messages u
                = map (fun v => (v, 1, value u))
                      (selected (trials random a c1 n) (out_vertices self))).
  { unfold SocialVertex_update in E.
    destruct (Z.ltb_spec (superstep self) nsteps) as [_|Ge]; [|lia].
    assert (K : forall (w : Vertex string) (c1 : nat),
               out_vertices w = out_vertices self ->
               (let '(ms, c2) := contacts random a (out_vertices w) (value w) c1 in
                Ok (set_outgoing_messages w ms, c2)) = Ok (u, c') ->
               c' = (c1 + n)%nat
               /\ outgoing_messages u
                  = map (fun v => (v, 1, value u))
                        (selected (trials random a c1 n) (out_vertices self))).
    { intros w c1 Eo Eu. rewrite contacts_selected, Eo in Eu.
      injection Eu as <- <-. cbn. auto. }
    destruct (String.eqb_spec (value self) "M") as [EM|NM]; cbn [bind] in E.
    - exists c. split; [now left|]. now apply (K self).
    - destruct (count_friends _ 0 0) as [[f m]|e]; cbn [bind] in E;
        [|discriminate].
      rewrite switch_decided_by_one_draw in E.
      destruct (m >? f); [destruct (Qltb (random c) sp)|]; cbn [bind] in E.
      + exists (S c). split; [right; auto|].
        now apply (K (set_value self "M"%string)).
      + exists (S c). split; [right; auto|]. now apply (K self).
      + exists c. split; [now left|]. now apply (K self). }
  split; [exact M|]. destruct M as (c1 & _ & _ & ->). split.
  - intros U P. f_equal. apply selected_all; [apply trials_length|].
    apply trials_constant. intros c0. apply Qltb_lt.
    eapply Qlt_le_trans; [apply U | exact P].
  - intros U P. rewrite selected_none; [reflexivity|].
    apply trials_constant. intros c0.
    destruct (Qltb (random c0) a) eqn:Eq; [|reflexivity].
    apply Qltb_lt in Eq. exfalso. apply (Qlt_irrefl 0).
    eapply Qle_lt_trans; [apply (U c0)|].
    eapply Qlt_le_trans; [exact Eq | exact P].
Qed.

Lemma SocialVertex_update_contacts_witness :
  let random := fun c : nat => if Nat.even c then (1 # 2)%Q else 0%Q in
  let self := mkVertex 3 "F"%string [0%nat; 1%nat; 2%nat]
                       [(0%nat, 1, "M"%string)] [] true 2 in
  superstep self < 30
  /\ exists (u : Vertex string) (c' : nat),
       SocialVertex_update random 30 (9 # 10) (4 # 10) self 0 = Ok (u, c')
       /\ value u = "M"%string
       /\ outgoing_messages u = [(0%nat, 1, "M"%string); (2%nat, 1, "M"%string)]
       /\ exists c1 : nat,
            (c1 = 0%nat \/ (c1 = 1%nat /\ value self <> "M"%string))
            /\ c' = (c1 + 3)%nat
            /\ outgoing_messages u
               = map (fun v => (v, 1, value u))
                     (selected (trials random (4 # 10) c1 3) (out_vertices self)).
Proof.
  intros random self.
  assert (Lt : superstep self < 30) by reflexivity.
  split; [exact Lt|].
  eexists _, _. split; [reflexivity|]. split; [reflexivity|].
  split; [reflexivity|].
  exact (proj1 (SocialVertex_update_contacts random 30 (9 # 10) (4 # 10)
                  self _ 0%nat _ Lt eq_refl)).
Defined.

(** ** What the rows of the series can hold *)

Lemma tally_bounds {V : Type} (test : Vertex V -> bool) (vs : list (Vertex V)) :
  0 <= tally test vs <= Z.of_nat (List.length vs).
Proof.
  induction vs as [|v vs IH]; cbn [tally List.length]; [lia|].
  destruct (test v); lia.
Qed.

Lemma tally_le {V : Type} (t1 t2 : Vertex V -> bool) (vs : list (Vertex V)) :
  (forall v, t1 v = true -> t2 v = true) -> tally t1 vs <= tally t2 vs.
Proof.
  intros H. induction vs as [|v vs IH]; cbn [tally]; [lia|].
  specialize (H v).
  destruct (t1 v), (t2 v); first [lia | discriminate (H eq_refl)].
Qed.

Lemma tally_exclusive {V : Type} (t1 t2 : Vertex V -> bool)
      (vs : list (Vertex V)) :
  (forall v, t1 v = true -> t2 v = false) ->
  tally t1 vs + tally t2 vs <= Z.of_nat (List.length vs)
  /\ (tally t1 vs + tally t2 vs = Z.of_nat (List.length vs)
      <-> Forall (fun v => t1 v = true \/ t2 v = true) vs).
Proof.
  intros H. induction vs as [|v vs [IH1 IH2]]; cbn [tally List.length].
  - split; [lia|]. split; [constructor | reflexivity].
  - specialize (H v). rewrite Nat2Z.inj_succ.
    destruct (t1 v) eqn:E1; [rewrite (H eq_refl)|destruct (t2 v) eqn:E2].
    + split; [lia|]. split.
      * intros E. constructor; [now left|]. apply IH2. lia.
      * intros F. inversion F as [|? ? _ F']; subst. apply IH2 in F'. lia.
    + split; [lia|]. split.
      * intros E. constructor; [now right|]. apply IH2. lia.
      * intros F. inversion F as [|? ? _ F']; subst. apply IH2 in F'. lia.
    + split; [lia|]. split.
      * intros E. lia.
      * intros F. inversion F as [|? ? [K|K] F']; congruence.
Qed.

Lemma proportion_as_fraction {V : Type} (test : Vertex V -> bool)
      (v0 : Vertex V) (rest : list (Vertex V)) :
  Zpos (Qden (proportion test (v0 :: rest)))
  = Z.of_nat (List.length (v0 :: rest))
  /\ Qnum (proportion test (v0 :: rest)) = tally test (v0 :: rest).
Proof.
  unfold proportion. cbn [Qnum Qden]. split; [|reflexivity].
  rewrite Z2Pos.id; [reflexivity|]. cbn [List.length]. lia.
Qed.

(** X10. Every row [epidemic_stats] returns holds proportions with
    [0 <= pInfected <= pAlive <= 1]: the infected are among the alive. *)
Theorem epidemic_stats_infected_among_alive :
  forall (vs : list (Vertex Z)) (row : Stats),
    fst (epidemic_stats vs) = Ok row ->
    (0 <= pInfected row)%Q
    /\ (pInfected row <= pAlive row)%Q
    /\ (pAlive row <= 1)%Q.
Proof.
  intros vs row E. rewrite epidemic_stats_eval in E.
  destruct vs as [|v0 rest]; [discriminate E|]. injection E as <-.
  unfold pInfected, pAlive. cbn [fst snd].
  destruct (proportion_as_fraction (fun v : Vertex Z => value v >=? 0) v0 rest)
    as [Da Na].
  destruct (proportion_as_fraction (fun v : Vertex Z => value v >? 0) v0 rest)
    as [Di Ni].
  pose proof (tally_bounds (fun v : Vertex Z => value v >? 0) (v0 :: rest)) as Bi.
  pose proof (tally_bounds (fun v : Vertex Z => value v >=? 0) (v0 :: rest)) as Ba.
  pose proof (tally_le (fun v : Vertex Z => value v >? 0)
                (fun v : Vertex Z => value v >=? 0) (v0 :: rest)) as Lia.
  assert (Hle : tally (fun v : Vertex Z => value v >? 0) (v0 :: rest)
                <= tally (fun v : Vertex Z => value v >=? 0) (v0 :: rest)).
  { apply Lia. intros v. cbn beta.
    destruct (Z.gtb_spec (value v) 0), (Z.geb_spec (value v) 0); auto; lia. }
  unfold Qle. cbn [Qnum Qden inject_Z]. rewrite Da, Di, Na, Ni. nia.
Qed.

Lemma epidemic_stats_infected_among_alive_witness :
  let vs := [ mkVertex 0 (-1) [] [] [] false 3 ;
              mkVertex 1 2 [] [] [] true 3 ;
              mkVertex 2 0 [] [] [] true 3 ] in
  fst (epidemic_stats vs) = Ok (3, 2 # 3, 1 # 3)
  /\ (0 <= 1 # 3)%Q /\ (1 # 3 <= 2 # 3)%Q /\ (2 # 3 <= 1)%Q.
Proof.
  intros vs.
  assert (E : fst (epidemic_stats vs) = Ok (3, 2 # 3, 1 # 3)) by reflexivity.
  split; [exact E|].
  exact (epidemic_stats_infected_among_alive vs (3, 2 # 3, 1 # 3) E).
Defined.

(** X11. Every row [social_stats] returns holds two non-negative
    proportions that add up to at most 1, and to exactly 1 if and only
    if every vertex is on "F" or on "M". *)
Theorem social_stats_proportions :
  forall (vs : list (Vertex string)) (row : Stats),
    fst (social_stats vs) = Ok row ->
    (0 <= pF row)%Q
    /\ (0 <= pM row)%Q
    /\ (pF row + pM row <= 1)%Q
    /\ ((pF row + pM row == 1)%Q <-> Forall (fun v => label (value v)) vs).
Proof.
  intros vs row E. rewrite social_stats_eval in E.
  destruct vs as [|v0 rest]; [discriminate E|]. injection E as <-.
  unfold pF, pM. cbn [fst snd].
  destruct (proportion_as_fraction
              (fun v : Vertex string => (value v =? "F")%string) v0 rest)
    as [DF NF].
  destruct (proportion_as_fraction
              (fun v : Vertex string => (value v =? "M")%string) v0 rest)
    as [DM NM].
  pose proof (tally_bounds (fun v : Vertex string => (value v =? "F")%string)
                (v0 :: rest)) as BF.
  pose proof (tally_bounds (fun v : Vertex string => (value v =? "M")%string)
                (v0 :: rest)) as BM.
  destruct (tally_exclusive
              (fun v : Vertex string => (value v =? "F")%string)
              (fun v : Vertex string => (value v =? "M")%string) (v0 :: rest))
    as [X1 X2].
  { intros v H. cbn beta in *. apply String.eqb_eq in H. now rewrite H. }
  assert (P : 0 < Z.of_nat (List.length (v0 :: rest))) by (cbn [List.length]; lia).
  split; [|split; [|split]].
  - unfold Qle. cbn [Qnum Qden]. rewrite NF. lia.
  - unfold Qle. cbn [Qnum Qden]. rewrite NM. lia.
  - unfold Qle, Qplus. cbn [Qnum Qden]. rewrite Pos2Z.inj_mul, DF, DM, NF, NM. nia.
  - assert (L : Forall (fun v => label (value v)) (v0 :: rest)
                <-> Forall (fun v : Vertex string =>
                              (value v =? "F")%string = true
                              \/ (value v =? "M")%string = true) (v0 :: rest)).
    { split; intros F; (eapply Forall_impl; [|exact F]); cbn beta;
        unfold label; intros v [H|H];
        [left | right | left | right]; now apply String.eqb_eq. }
    rewrite L, <- X2. unfold Qeq, Qplus. cbn [Qnum Qden].
    rewrite Pos2Z.inj_mul, DF, DM, NF, NM. split; intros H; nia.
Qed.

Lemma social_stats_proportions_witness :
  let vs := [ mkVertex 0 "M"%string [] [] [] true 5 ;
              mkVertex 1 "F"%string [] [] [] true 5 ;
              mkVertex 2 "F"%string [] [] [] true 5 ] in
  fst (social_stats vs) = Ok (5, 2 # 3, 1 # 3)
  /\ (pF (5%Z, 2 # 3, 1 # 3) + pM (5%Z, 2 # 3, 1 # 3) == 1)%Q.
Proof.
  intros vs.
  assert (E : fst (social_stats vs) = Ok (5, 2 # 3, 1 # 3)) by reflexivity.
  split; [exact E|].
  apply (proj2 (proj2 (proj2 (proj2 (social_stats_proportions vs _ E))))).
  constructor; [right; reflexivity|].
  constructor; [left; reflexivity|].
  constructor; [left; reflexivity|]. constructor.
Defined.

Lemma tally_Permutation {V : Type} (test : Vertex V -> bool)
      (vs ws : list (Vertex V)) :
  Permutation vs ws -> tally test vs = tally test ws.
Proof.
  induction 1; cbn [tally]; lia.
Qed.

(** X12. Both collectors count without regard to the order of the
    vertices: on two lists that are permutations of each other and
    start with vertices of the same superstep they return the same
    row, or both raise on the empty list. *)
Theorem stats_ignore_vertex_order :
  (forall vs ws : list (Vertex Z),
      Permutation vs ws ->
      option_map superstep (hd_error vs) = option_map superstep (hd_error ws) ->
      fst (epidemic_stats vs) = fst (epidemic_stats ws))
  /\ (forall vs ws : list (Vertex string),
        Permutation vs ws ->
        option_map superstep (hd_error vs) = option_map superstep (hd_error ws) ->
        fst (social_stats vs) = fst (social_stats ws)).
Proof.
  split; intros vs ws P H.
  - rewrite !epidemic_stats_eval.
    destruct vs as [|v vs], ws as [|w ws].
    + reflexivity.
    + apply Permutation_nil in P. discriminate P.
    + apply Permutation_sym, Permutation_nil in P. discriminate P.
    + cbn in H. injection H as H. cbn [fst]. unfold proportion.
      now rewrite H, !(tally_Permutation _ _ _ P), (Permutation_length P).
  - rewrite !social_stats_eval.
    destruct vs as [|v vs], ws as [|w ws].
    + reflexivity.
    + apply Permutation_nil in P. discriminate P.
    + apply Permutation_sym, Permutation_nil in P. discriminate P.
    + cbn in H. injection H as H. cbn [fst]. unfold proportion.
      now rewrite H, !(tally_Permutation _ _ _ P), (Permutation_length P).
Qed.

Lemma stats_ignore_vertex_order_witness :
  let v0 := mkVertex 0 1 [] [] [] true 3 in
  let v1 := mkVertex 1 (-1) [] [] [] false 3 in
  Permutation [v0; v1] [v1; v0]
  /\ option_map superstep (hd_error [v0; v1])
     = option_map superstep (hd_error [v1; v0])
  /\ fst (epidemic_stats [v0; v1]) = fst (epidemic_stats [v1; v0]).
Proof.
  intros v0 v1.
  assert (P : Permutation [v0; v1] [v1; v0]) by apply perm_swap.
  split; [exact P|]. split; [reflexivity|].
  exact (proj1 stats_ignore_vertex_order [v0; v1] [v1; v0] P eq_refl).
Defined.

(** ** A round, seen from one vertex *)

Section RoundOfAVertex.

Context {V : Type}.
Variable update : Vertex V -> nat -> result (Vertex V * nat).
Variable stats_fn : option (Prog V Stats).
Hypothesis stats_pure : pure_stats stats_fn.

Lemma superstep_round_pointwise (s s' : Engine V) :
  superstep_round update stats_fn s = Ok s' ->
  Forall2 (fun v v' => exists vs1 u, stepped update v u /\ settled vs1 u v')
          (vertices s) (vertices s').
Proof.
  intros E.
  destruct (superstep_round_inv update stats_fn stats_pure s s' E)
    as (vs1 & H1 & H2 & _).
  eapply Forall2_compose; [|exact H1|exact H2].
  intros v u v' St Se. eauto.
Qed.

Lemma superstep_round_vertex (s s' : Engine V) (j : nat) (v : Vertex V) :
  superstep_round update stats_fn s = Ok s' ->
  nth_error (vertices s) j = Some v ->
  exists vs1 u v',
    nth_error (vertices s') j = Some v'
    /\ stepped update v u /\ settled vs1 u v'.
Proof.
  intros E Hj.
  destruct (Forall2_nth_error _ _ _ (superstep_round_pointwise s s' E) j v Hj)
    as (v' & Hj' & vs1 & u & St & Se).
  eauto 10.
Qed.

(** The row a round appends, when a collector is configured. *)
Lemma superstep_round_row (f : Prog V Stats) (s s' : Engine V) :
  stats_fn = Some f ->
  superstep_round update stats_fn s = Ok s' ->
  exists (vs3 : list (Vertex V)) (row : Stats),
    f vs3 = (Ok row, vs3)
    /\ vertices s' = advance vs3
    /\ data s' = data s ++ [row].
Proof.
  intros Ef E.
  destruct (superstep_round_inv update stats_fn stats_pure s s' E)
    as (vs1 & _ & _ & H).
  rewrite Ef in H. exact H.
Qed.

End RoundOfAVertex.

Lemma advance_head {V : Type} (vs3 : list (Vertex V)) (v0 : Vertex V)
      (rest : list (Vertex V)) :
  advance vs3 = v0 :: rest ->
  exists w0 ws, vs3 = w0 :: ws /\ superstep v0 = superstep w0 + 1.
Proof.
  destruct vs3 as [|w0 ws]; cbn; [discriminate|].
  intros E. injection E as <- _. cbn. eauto.
Qed.

(** ** The graph of [epidemic_main] and its run *)

Lemma create_edges_barrier random pn {V : Type} (vs : list (Vertex V)) (c : nat) :
  barrier 0 (mkEngine vs c []) ->
  barrier 0 (mkEngine (fst (create_edges random pn vs c))
                      (snd (create_edges random pn vs c)) []).
Proof.
  unfold barrier, create_edges. cbn [vertices]. intros B.
  destruct (create_edges_from_spec random pn (List.length vs) vs 0 c eq_refl)
    as (_ & S2 & _).
  rewrite <- (Forall2_length S2).
  eapply Forall2_transport; [|exact B|exact S2].
  cbn beta. intros v v' (Bs & Bo & Be) (k & added & A & ->).
  unfold at_barrier. cbn. split; [exact Bs|]. split; [exact Bo|].
  apply Forall_app. split; [exact Be|].
  now apply (added_neighbours_facts _ k).
Qed.

(** X13. The body of [epidemic_main]: on vertices at superstep 0 with
    empty outgoing buffers and neighbours, if any, among the vertices,
    [create_edges] followed by [epidemic_pregel] returns. The run makes
    its draws after those of [create_edges], raises no error and stops
    with no vertex active, [max nsteps 1 + 2] units of fuel being
    enough. *)
Theorem create_edges_then_epidemic_pregel_returns :
  forall random pn nsteps p i td (vertices0 : list (Vertex Z)) (c : nat),
    barrier 0 (mkEngine vertices0 c []) ->
    exists s' : Engine Z,
      epidemic_pregel random nsteps p i td (Z.to_nat (Z.max nsteps 1) + 2)
                      (fst (create_edges random pn vertices0 c))
                      (snd (create_edges random pn vertices0 c))
      = Some (Ok s')
      /\ check_active (vertices s') = false.
Proof.
  intros random pn nsteps p i td vs c B.
  exact (epidemic_pregel_returns random nsteps p i td _ _
           (create_edges_barrier random pn vs c B)).
Qed.

Lemma create_edges_then_epidemic_pregel_returns_witness :
  let vs := [ mkVertex 0 0 [] [] [] true 0 ;
              mkVertex 1 0 [] [] [] true 0 ;
              mkVertex 2 0 [] [] [] true 0 ] in
  let random := fun c : nat => if Nat.even c then 0%Q else (1 # 2)%Q in
  barrier 0 (mkEngine vs 0 [])
  /\ exists s' : Engine Z,
       epidemic_pregel random 3 (1 # 4) 1 1 (Z.to_nat (Z.max 3 1) + 2)
                       (fst (create_edges random (1 # 10) vs 0))
                       (snd (create_edges random (1 # 10) vs 0))
       = Some (Ok s')
       /\ check_active (vertices s') = false.
Proof.
  intros vs random.
  assert (B : barrier 0 (mkEngine vs 0 [])).
  { unfold barrier, at_barrier. cbn. repeat constructor. }
  split; [exact B|].
  exact (create_edges_then_epidemic_pregel_returns
           random (1 # 10) 3 (1 # 4) 1 1 vs 0%nat B).
Defined.

(** ** Rows and supersteps *)

Section RowNumbers.

Context {V : Type}.
Variable update : Vertex V -> nat -> result (Vertex V * nat).
Variable stats : Prog V Stats.
Hypothesis stats_pure : pure_stats (Some stats).
Hypothesis update_keeps_superstep :
  forall v c u c', update v c = Ok (u, c') -> superstep u = superstep v.
Hypothesis stats_reads_first :
  forall vs row, stats vs = (Ok row, vs) ->
                 exists v0 rest, vs = v0 :: rest /\ stepNumber row = superstep v0.

Lemma in_step_round (s s' : Engine V) :
  in_step s ->
  superstep_round update (Some stats) s = Ok s' ->
  in_step s'.
Proof.
  intros [I1 I2] E.
  destruct (superstep_round_row update (Some stats) stats_pure stats s s'
              eq_refl E) as (vs3 & row & Er & Ev & Ed).
  pose proof (superstep_round_pointwise update (Some stats) stats_pure s s' E)
    as F.
  assert (S' : Forall (fun v' => superstep v'
                                 = Z.of_nat (List.length (data s)) + 1)
                      (vertices s')).
  { eapply Forall2_transport; [|exact I1|exact F].
    cbn beta. intros v v' Hv (vs1 & u & St & Se).
    destruct Se as (_ & _ & _ & _ & Hs & _). rewrite Hs.
    unfold stepped in St. destruct (active v).
    - destruct St as (c & c' & Eu).
      rewrite (update_keeps_superstep _ _ _ _ Eu). lia.
    - subst u. lia. }
  unfold in_step. rewrite Ed, length_app. cbn [List.length].
  rewrite Nat.add_1_r. split.
  - eapply Forall_impl; [|exact S']. cbn beta. intros v Hv. lia.
  - rewrite seq_S, !map_app, I2. cbn [map Nat.add]. do 2 f_equal.
    destruct (stats_reads_first vs3 row Er) as (w0 & ws & -> & ->).
    rewrite Ev in S'. cbn [advance map] in S'.
    inversion S' as [|? ? H0 _]; subst. cbn in H0. lia.
Qed.

Lemma in_step_rounds : forall (k : nat) (s s' : Engine V),
  in_step s ->
  rounds update (Some stats) k s = Ok s' ->
  in_step s'.
Proof.
  induction k as [|k IH]; intros s s' I E; cbn in E.
  - now injection E as <-.
  - destruct (check_active (vertices s)); [|now injection E as <-].
    destruct (superstep_round update (Some stats) s) as [s1|e] eqn:E1;
      cbn [bind] in E; [|discriminate].
    exact (IH s1 s' (in_step_round s s1 I E1) E).
Qed.

End RowNumbers.

Lemma in_step_initially {V : Type} (vs : list (Vertex V)) (c : nat) :
  Forall (fun v => superstep v = 0) vs -> in_step (mkEngine vs c []).
Proof. intros H. split; [exact H | reflexivity]. Qed.

Lemma epidemic_stats_reads_first (vs : list (Vertex Z)) (row : Stats) :
  epidemic_stats vs = (Ok row, vs) ->
  exists v0 rest, vs = v0 :: rest /\ stepNumber row = superstep v0.
Proof.
  rewrite epidemic_stats_eval. destruct vs as [|v0 rest]; [discriminate|].
  intros E. injection E as <-. eauto.
Qed.

Lemma social_stats_reads_first (vs : list (Vertex string)) (row : Stats) :
  social_stats vs = (Ok row, vs) ->
  exists v0 rest, vs = v0 :: rest /\ stepNumber row = superstep v0.
Proof.
  rewrite social_stats_eval. destruct vs as [|v0 rest]; [discriminate|].
  intros E. injection E as <-. eauto.
Qed.

(** X14. In a run of either simulation started from vertices at
    superstep 0, in every state the loop reaches the rows gathered so
    far are numbered 0, 1, 2, ... without a gap, and every vertex,
    active or not, is at the superstep that equals the number of rows:
    the collectors' [vertices[0].superstep] is the number of the round
    just completed. *)
Theorem rows_are_numbered_from_zero :
  (forall random nsteps p i td (vs : list (Vertex Z)) (c k : nat)
          (s' : Engine Z),
      Forall (fun v => superstep v = 0) vs ->
      rounds (EpidemicVertex_update random nsteps p i td)
             (Some epidemic_stats) k (mkEngine vs c []) = Ok s' ->
      map stepNumber (data s') = map Z.of_nat (seq 0 (List.length (data s')))
      /\ Forall (fun v => superstep v = Z.of_nat (List.length (data s')))
                (vertices s'))
  /\ (forall random nsteps sp a (vs : list (Vertex string)) (c k : nat)
            (s' : Engine string),
        Forall (fun v => superstep v = 0) vs ->
        rounds (SocialVertex_update random nsteps sp a)
               (Some social_stats) k (mkEngine vs c []) = Ok s' ->
        map stepNumber (data s') = map Z.of_nat (seq 0 (List.length (data s')))
        /\ Forall (fun v => superstep v = Z.of_nat (List.length (data s')))
                  (vertices s')).
Proof.
  split.
  - intros random nsteps p i td vs c k s' Z0 E.
    destruct (in_step_rounds (EpidemicVertex_update random nsteps p i td)
                epidemic_stats pure_epidemic_stats) with (k := k)
      (s := mkEngine vs c []) (s' := s') as [I1 I2]; auto.
    + intros v c0 u c' Eu.
      exact (proj1 (proj2 (proj2 (proj2
               (EpidemicVertex_update_frame _ _ _ _ _ _ _ _ _ Eu))))).
    + exact epidemic_stats_reads_first.
    + now apply in_step_initially.
  - intros random nsteps sp a vs c k s' Z0 E.
    destruct (in_step_rounds (SocialVertex_update random nsteps sp a)
                social_stats pure_social_stats) with (k := k)
      (s := mkEngine vs c []) (s' := s') as [I1 I2]; auto.
    + intros v c0 u c' Eu.
      exact (proj1 (proj2 (proj2 (proj2
               (SocialVertex_update_frame _ _ _ _ _ _ _ _ Eu))))).
    + exact social_stats_reads_first.
    + now apply in_step_initially.
Qed.

Lemma rows_are_numbered_from_zero_witness :
  Forall (fun v : Vertex Z => superstep v = 0) two_vertices
  /\ exists s' : Engine Z,
       rounds (EpidemicVertex_update (fun _ => 0%Q) 50 1 1 1)
              (Some epidemic_stats) 3 (mkEngine two_vertices 0 []) = Ok s'
       /\ map stepNumber (data s') = [0; 1; 2]
       /\ map stepNumber (data s') = map Z.of_nat (seq 0 (List.length (data s')))
       /\ Forall (fun v => superstep v = Z.of_nat (List.length (data s')))
                 (vertices s').
Proof.
  assert (Z0 : Forall (fun v : Vertex Z => superstep v = 0) two_vertices).
  { repeat constructor. }
  split; [exact Z0|].
  eexists. split; [vm_compute; reflexivity|]. split; [reflexivity|].
  refine (proj1 rows_are_numbered_from_zero
            (fun _ => 0%Q) 50 1%Q 1 1 two_vertices 0%nat 3%nat _ Z0 _).
  vm_compute. reflexivity.
Defined.

(** ** The drift of the social network *)

Lemma tally_mono {V : Type} (t : Vertex V -> bool) (l1 l2 : list (Vertex V)) :
  Forall2 (fun x y => t x = true -> t y = true) l1 l2 ->
  tally t l1 <= tally t l2.
Proof.
  induction 1 as [|x y l1 l2 H F IH]; cbn [tally]; [lia|].
  destruct (t x), (t y); first [lia | discriminate (H eq_refl)].
Qed.

Lemma tally_anti {V : Type} (t : Vertex V -> bool) (l1 l2 : list (Vertex V)) :
  Forall2 (fun x y => t y = true -> t x = true) l1 l2 ->
  tally t l2 <= tally t l1.
Proof.
  induction 1 as [|x y l1 l2 H F IH]; cbn [tally]; [lia|].
  destruct (t x), (t y); first [lia | discriminate (H eq_refl)].
Qed.

Lemma drifts_to_M_snoc (d : list Stats) (row : Stats) :
  drifts_to_M d ->
  (forall r, last_row d = Some r ->
             (pF row <= pF r)%Q /\ (pM r <= pM row)%Q) ->
  drifts_to_M (d ++ [row]).
Proof.
  intros N L j r1 r2 E1 E2.
  assert (B : (S j < List.length (d ++ [row]))%nat).
  { apply nth_error_Some. now rewrite E2. }
  rewrite length_app in B. cbn [List.length] in B.
  destruct (Nat.eq_dec (S j) (List.length d)) as [Ej|Nj].
  - rewrite nth_error_app1 in E1 by lia.
    rewrite nth_error_app2, Ej, Nat.sub_diag in E2 by lia.
    cbn in E2. injection E2 as <-. apply L. unfold last_row.
    now rewrite <- Ej.
  - rewrite nth_error_app1 in E1, E2 by lia. exact (N j r1 r2 E1 E2).
Qed.

Lemma social_round_drift random nsteps sp a (s s' : Engine string) :
  superstep_round (SocialVertex_update random nsteps sp a)
                  (Some social_stats) s = Ok s' ->
  Forall2 (fun v v' =>
             ((value v' =? "F")%string = true -> (value v =? "F")%string = true)
             /\ ((value v =? "M")%string = true -> (value v' =? "M")%string = true))
          (vertices s) (vertices s').
Proof.
  intros E.
  eapply Forall2_weaken;
    [|exact (superstep_round_pointwise _ _ pure_social_stats s s' E)].
  cbn beta. intros v v' _ _ (vs1 & u & St & Se).
  destruct Se as (_ & Hval & _). rewrite Hval. unfold stepped in St.
  destruct (active v); [|subst u; auto].
  destruct St as (c & c' & Eu).
  destruct (SocialVertex_update_value _ _ _ _ _ _ _ _ Eu) as (_ & [H|H] & M).
  - rewrite H. auto.
  - rewrite H. split; [discriminate | reflexivity].
Qed.

Lemma social_round_invariant random nsteps sp a (s s' : Engine string) :
  social_invariant s ->
  superstep_round (SocialVertex_update random nsteps sp a)
                  (Some social_stats) s = Ok s' ->
  social_invariant s'.
Proof.
  intros [N L] E.
  destruct (superstep_round_row _ _ pure_social_stats social_stats s s'
              eq_refl E) as (vs3 & row & Er & Ev & Ed).
  pose proof (social_round_drift random nsteps sp a s s' E) as F.
  assert (Prow : pF row
                 = proportion (fun v => (value v =? "F")%string) (vertices s')
                 /\ pM row
                    = proportion (fun v => (value v =? "M")%string) (vertices s')).
  { rewrite social_stats_eval in Er. destruct vs3 as [|v0 rest];
      [discriminate|]. injection Er as <-. unfold pF, pM. cbn [fst snd].
    rewrite Ev. split; symmetry.
    - apply (proportion_values (fun x => (x =? "F")%string)), values_advance.
    - apply (proportion_values (fun x => (x =? "M")%string)), values_advance. }
  destruct Prow as [PF PM].
  unfold social_invariant. rewrite Ed. split.
  - apply drifts_to_M_snoc; [exact N|].
    intros r Hr. destruct (L r Hr) as [LF LM]. rewrite PF, PM, LF, LM.
    split.
    + apply proportion_le; [exact (Forall2_length F)|].
      apply (tally_anti (fun v : Vertex string => (value v =? "F")%string)).
      eapply Forall2_weaken; [|exact F]. cbn beta. intros v v' _ _ [H _]. exact H.
    + apply proportion_le; [symmetry; exact (Forall2_length F)|].
      apply (tally_mono (fun v : Vertex string => (value v =? "M")%string)).
      eapply Forall2_weaken; [|exact F]. cbn beta. intros v v' _ _ [_ H]. exact H.
  - intros r Hr. rewrite last_row_snoc in Hr. injection Hr as <-. auto.
Qed.

Lemma social_rounds_invariant random nsteps sp a :
  forall (k : nat) (s s' : Engine string),
    social_invariant s ->
    rounds (SocialVertex_update random nsteps sp a)
           (Some social_stats) k s = Ok s' ->
    social_invariant s'.
Proof.
  induction k as [|k IH]; intros s s' I E; cbn in E.
  - now injection E as <-.
  - destruct (check_active (vertices s)); [|now injection E as <-].
    destruct (superstep_round _ _ s) as [s1|e] eqn:E1; cbn [bind] in E;
      [|discriminate].
    exact (IH s1 s' (social_round_invariant _ _ _ _ _ _ I E1) E).
Qed.

Lemma social_invariant_initially (vs : list (Vertex string)) (c : nat) :
  social_invariant (mkEngine vs c []).
Proof.
  split.
  - intros [|j] r1 r2 E; discriminate E.
  - intros r E. discriminate E.
Qed.

(** X15. In every run of the social network, from any vertices, the
    series drifts to "M": from each row to the next the proportion on
    "F" never grows and the proportion on "M" never shrinks. *)
Theorem social_series_drifts_to_M :
  forall random nsteps sp a (vs : list (Vertex string)) (c : nat),
    (forall (k : nat) (s' : Engine string),
        rounds (SocialVertex_update random nsteps sp a)
               (Some social_stats) k (mkEngine vs c []) = Ok s' ->
        drifts_to_M (data s'))
    /\ (forall (fuel : nat) (s' : Engine string),
          social_pregel random nsteps sp a fuel vs c = Some (Ok s') ->
          drifts_to_M (data s')).
Proof.
  intros random nsteps sp a vs c.
  assert (A : forall (k : nat) (s' : Engine string),
             rounds (SocialVertex_update random nsteps sp a)
                    (Some social_stats) k (mkEngine vs c []) = Ok s' ->
             drifts_to_M (data s')).
  { intros k s' E.
    exact (proj1 (social_rounds_invariant random nsteps sp a k _ s'
                    (social_invariant_initially vs c) E)). }
  split; [exact A|].
  intros fuel s' E. unfold social_pregel in E. apply run_rounds in E.
  symmetry in E. exact (A fuel s' E).
Qed.

Lemma social_series_drifts_to_M_witness :
  exists s' : Engine string,
    social_pregel (fun _ => 0%Q) 3 1 1 5 two_friends 0 = Some (Ok s')
    /\ map pM (data s') = [1 # 2; 2 # 2; 2 # 2; 2 # 2]%Q
    /\ drifts_to_M (data s').
Proof.
  eexists. split; [vm_compute; reflexivity|]. split; [reflexivity|].
  refine (proj2 (social_series_drifts_to_M (fun _ => 0%Q) 3 1%Q 1%Q
                   two_friends 0%nat) 5%nat _ _).
  vm_compute. reflexivity.
Defined.

(** ** The length of a social run *)

Lemma SocialVertex_update_stays_active random nsteps sp a
      (self u : Vertex string) (c c' : nat) :
  superstep self < nsteps ->
  SocialVertex_update random nsteps sp a self c = Ok (u, c') ->
  active u = active self.
Proof.
  intros Lt E. unfold SocialVertex_update in E.
  destruct (Z.ltb_spec (superstep self) nsteps) as [_|Ge]; [|lia].
  destruct (value self =? "M")%string; cbn [bind] in E.
  - destruct (contacts random a _ _ c) as [ms c2]. now injection E as <- _.
  - destruct (count_friends _ 0 0) as [[f m]|e]; cbn [bind] in E; [|discriminate].
    destruct (switch random sp f m c) as [[|] c1]; cbn [bind] in E;
      destruct (contacts random a _ _ c1) as [ms c2]; now injection E as <- _.
Qed.

Lemma social_barrier_round random nsteps sp a (t : Z) (s : Engine string) :
  barrier t s ->
  Forall well_labelled (vertices s) ->
  check_active (vertices s) = true ->
  exists s',
    superstep_round (SocialVertex_update random nsteps sp a)
                    (Some social_stats) s = Ok s'
    /\ barrier (t + 1) s'
    /\ Forall well_labelled (vertices s').
Proof.
  apply (barrier_round (SocialVertex_update random nsteps sp a)
           (Some social_stats) well_labelled
           pure_social_stats total_social_stats).
  - intros v c0 Wv. now apply SocialVertex_update_returns.
  - intros s0 s' Ws E.
    pose proof (social_round_well_labelled random nsteps sp a s0 Ws) as H.
    now rewrite E in H.
Qed.

Lemma all_active_check {V : Type} (vs : list (Vertex V)) :
  vs <> [] -> Forall (fun v => active v = true) vs -> check_active vs = true.
Proof.
  intros N F. destruct vs as [|v vs]; [contradiction|].
  inversion F as [|? ? Hv _]; subst. cbn. now rewrite Hv.
Qed.

Lemma social_full_run random nsteps sp a :
  forall (m : nat) (t : Z) (s : Engine string),
    barrier t s ->
    Forall well_labelled (vertices s) ->
    Forall (fun v => active v = true) (vertices s) ->
    vertices s <> [] ->
    social_invariant s ->
    t + Z.of_nat m = nsteps ->
    exists (s' : Engine string) (d : list Stats) (row : Stats),
      run (SocialVertex_update random nsteps sp a) (Some social_stats)
          (m + 2) s = Some (Ok s')
      /\ check_active (vertices s') = false
      /\ data s' = d ++ [row]
      /\ List.length d = (List.length (data s) + m)%nat
      /\ (forall r0, last_row d = Some r0 ->
                     pF row = pF r0 /\ pM row = pM r0).
Proof.
  induction m as [|m IH]; intros t s B W A N I T.
  - cbn [Nat.add run]. rewrite (all_active_check _ N A).
    destruct (social_barrier_round random nsteps sp a t s B W
                (all_active_check _ N A)) as (s1 & E1 & _ & _).
    rewrite E1.
    assert (H : Forall (halting (SocialVertex_update random nsteps sp a))
                       (vertices s)).
    { unfold barrier in B. eapply Forall_impl; [|exact B].
      intros v (Bs & _). apply SocialVertex_update_at_ceiling. lia. }
    destruct (halting_round _ _ pure_social_stats s s1 H E1) as [F _].
    assert (K : check_active (vertices s1) = false
                /\ values (vertices s1) = values (vertices s)).
    { clear - F. unfold check_active, values.
      induction F as [|v v' l l' (A1 & A2 & _) F [IH1 IH2]]; cbn; [auto|].
      rewrite A1, A2, IH1, IH2. auto. }
    destruct K as [K1 K2]. rewrite K1.
    destruct (social_round_invariant random nsteps sp a s s1 I E1) as [_ L1].
    destruct (superstep_round_row _ _ pure_social_stats social_stats s s1
                eq_refl E1) as (vs3 & row & _ & _ & Ed).
    exists s1, (data s), row. split; [reflexivity|]. split; [exact K1|].
    split; [exact Ed|]. split; [lia|].
    intros r0 Hr0. destruct I as [_ L0]. destruct (L0 r0 Hr0) as [F0 M0].
    destruct (L1 row) as [F1 M1]; [rewrite Ed; apply last_row_snoc|].
    rewrite F1, M1, F0, M0.
    split; [apply (proportion_values (fun x => (x =? "F")%string))
           | apply (proportion_values (fun x => (x =? "M")%string))];
      exact K2.
  - change (S m + 2)%nat with (S (m + 2)). cbn [run].
    rewrite (all_active_check _ N A).
    destruct (social_barrier_round random nsteps sp a t s B W
                (all_active_check _ N A)) as (s1 & E1 & B1 & W1).
    rewrite E1.
    pose proof (superstep_round_pointwise _ _ pure_social_stats s s1 E1) as F.
    assert (A1 : Forall (fun v => active v = true) (vertices s1)).
    { unfold barrier in B.
      eapply Forall2_transport; [|exact (Forall_and A B)|exact F].
      cbn beta. intros v v' [Av (Bs & _)] (vs1 & u & St & Se).
      destruct Se as (_ & _ & _ & Hact & _). rewrite Hact.
      unfold stepped in St. rewrite Av in St. destruct St as (c & c' & Eu).
      assert (Lt : superstep v < nsteps) by lia.
      rewrite (SocialVertex_update_stays_active _ _ _ _ _ _ _ _ Lt Eu).
      exact Av. }
    assert (N1 : vertices s1 <> []).
    { intros E. apply N. apply Forall2_length in F. rewrite E in F.
      destruct (vertices s); [reflexivity | discriminate F]. }
    destruct (superstep_round_row _ _ pure_social_stats social_stats s s1
                eq_refl E1) as (vs3 & row1 & _ & _ & Ed).
    destruct (IH (t + 1) s1 B1 W1 A1 N1
                (social_round_invariant random nsteps sp a s s1 I E1)
                ltac:(lia)) as (s' & d & row & R & Ha & Ed' & Ld & Lr).
    exists s', d, row. split; [exact R|]. split; [exact Ha|].
    split; [exact Ed'|]. split; [|exact Lr].
    rewrite Ld, Ed, length_app. cbn [List.length]. lia.
Qed.

(** X16. A run of the social network with a ceiling [nsteps >= 0],
    started from a non-empty list of active vertices at superstep 0 that
    hold platform labels, empty buffers aside, over a well-formed graph,
    returns a series of exactly [nsteps + 1] rows; the last row, that of
    the round in which every vertex only votes to halt, repeats the
    proportions of the row before it. *)
Theorem social_run_has_nsteps_plus_one_rows :
  forall random nsteps sp a (vs : list (Vertex string)) (c : nat),
    0 <= nsteps ->
    vs <> [] ->
    barrier 0 (mkEngine vs c []) ->
    Forall well_labelled vs ->
    Forall (fun v => active v = true) vs ->
    exists (s' : Engine string) (d : list Stats) (row : Stats),
      social_pregel random nsteps sp a (Z.to_nat nsteps + 2) vs c = Some (Ok s')
      /\ check_active (vertices s') = false
      /\ data s' = d ++ [row]
      /\ List.length d = Z.to_nat nsteps
      /\ (forall r0, last_row d = Some r0 ->
                     pF row = pF r0 /\ pM row = pM r0).
Proof.
  intros random nsteps sp a vs c Hn N B W A. unfold social_pregel.
  destruct (social_full_run random nsteps sp a (Z.to_nat nsteps) 0
              (mkEngine vs c []) B W A N (social_invariant_initially vs c)
              ltac:(lia)) as (s' & d & row & R & Ha & Ed & Ld & Lr).
  exists s', d, row. cbn [data List.length Nat.add] in Ld. auto 10.
Qed.

Lemma social_run_has_nsteps_plus_one_rows_witness :
  0 <= 3
  /\ two_friends <> []
  /\ barrier 0 (mkEngine two_friends 0 [])
  /\ Forall well_labelled two_friends
  /\ Forall (fun v : Vertex string => active v = true) two_friends
  /\ exists (s' : Engine string) (d : list Stats) (row : Stats),
       social_pregel (fun _ => 1 # 2) 3 (9 # 10) (4 # 10)
                     (Z.to_nat 3 + 2) two_friends 0 = Some (Ok s')
       /\ check_active (vertices s') = false
       /\ data s' = d ++ [row]
       /\ List.length d = Z.to_nat 3
       /\ (forall r0, last_row d = Some r0 ->
                      pF row = pF r0 /\ pM row = pM r0).
Proof.
  assert (Hn : 0 <= 3) by discriminate.
  assert (N : two_friends <> []) by discriminate.
  assert (B : barrier 0 (mkEngine two_friends 0 [])).
  { unfold barrier, at_barrier. cbn.
    constructor; [|constructor; [|constructor]];
      (split; [reflexivity|]); (split; [reflexivity|]);
      (constructor; [|constructor]); cbn; lia. }
  assert (W : Forall well_labelled two_friends).
  { constructor; [|constructor; [|constructor]].
    - split; [right; reflexivity | split; constructor].
    - split; [left; reflexivity | split; constructor]. }
  assert (A : Forall (fun v : Vertex string => active v = true) two_friends).
  { repeat constructor. }
  split; [exact Hn|]. split; [exact N|]. split; [exact B|].
  split; [exact W|]. split; [exact A|].
  exact (social_run_has_nsteps_plus_one_rows
           (fun _ => 1 # 2) 3 (9 # 10) (4 # 10) two_friends 0%nat Hn N B W A).
Defined.

(** ** The course of an infection in a run *)

Lemma active_vertex_check {V : Type} (vs : list (Vertex V)) (j : nat)
      (v : Vertex V) :
  nth_error vs j = Some v -> active v = true -> check_active vs = true.
Proof.
  intros Hj Ha. unfold check_active. apply existsb_exists.
  exists v. split; [exact (nth_error_In _ _ Hj) | exact Ha].
Qed.

Lemma epidemic_round_of_infected random nsteps p i td (s s' : Engine Z)
      (j : nat) (v : Vertex Z) :
  superstep_round (EpidemicVertex_update random nsteps p i td)
                  (Some epidemic_stats) s = Ok s' ->
  nth_error (vertices s) j = Some v ->
  active v = true ->
  superstep v <> 0 -> superstep v < nsteps ->
  0 < value v ->
  exists v' : Vertex Z,
    nth_error (vertices s') j = Some v'
    /\ superstep v' = superstep v + 1
    /\ (value v <= td -> value v' = value v + 1 /\ active v' = true)
    /\ (td < value v -> value v' = -1 /\ active v' = false).
Proof.
  intros E Hj Ha N0 Lt Hv.
  destruct (superstep_round_vertex _ _ pure_epidemic_stats s s' j v E Hj)
    as (vs1 & u & v' & Hj' & St & Se).
  exists v'. split; [exact Hj'|].
  destruct Se as (_ & Hval & _ & Hact & Hs & _). rewrite Hval, Hact, Hs.
  unfold stepped in St. rewrite Ha in St. destruct St as (c & c' & Eu).
  unfold EpidemicVertex_update in Eu.
  destruct (Z.eqb_spec (superstep v) 0) as [E0|_]; [contradiction|].
  destruct (Z.ltb_spec (superstep v) nsteps) as [_|Ge]; [|lia].
  destruct (Z.eqb_spec (value v) (-1)) as [E1|_]; [lia|].
  destruct (Z.gtb_spec (value v) 0) as [_|Le]; [|lia].
  destruct (Z.leb_spec (value v) td) as [Lw|Gw]; injection Eu as <- _; cbn.
  - split; [reflexivity|]. split; [auto | lia].
  - split; [reflexivity|]. split; [lia | auto].
Qed.

Lemma infection_course random nsteps p i td :
  forall (k : nat) (s s' : Engine Z) (j : nat) (v : Vertex Z) (x : Z),
    nth_error (vertices s) j = Some v ->
    active v = true ->
    1 <= superstep v ->
    superstep v + Z.of_nat k <= nsteps ->
    value v = x -> 1 <= x <= td + 1 ->
    x + Z.of_nat k <= td + 2 ->
    rounds (EpidemicVertex_update random nsteps p i td)
           (Some epidemic_stats) k s = Ok s' ->
    exists v' : Vertex Z,
      nth_error (vertices s') j = Some v'
      /\ (x + Z.of_nat k <= td + 1 ->
          value v' = x + Z.of_nat k /\ active v' = true)
      /\ (x + Z.of_nat k = td + 2 -> value v' = -1 /\ active v' = false).
Proof.
  induction k as [|k IH]; intros s s' j v x Hj Ha Hs Hn Hx Rx Kx E.
  - cbn in E. injection E as <-. exists v. split; [exact Hj|].
    split; [intros _; split; [lia | exact Ha] | lia].
  - cbn [rounds] in E. rewrite (active_vertex_check _ j v Hj Ha) in E.
    destruct (superstep_round _ _ s) as [s1|e] eqn:E1; cbn [bind] in E;
      [|discriminate].
    destruct (epidemic_round_of_infected random nsteps p i td s s1 j v E1 Hj Ha)
      as (v1 & Hj1 & Hs1 & Win & Wout); try lia.
    destruct (Z.le_gt_cases x td) as [Lw|Gw].
    + destruct Win as [Hv1 Ha1]; [lia|].
      destruct (IH s1 s' j v1 (x + 1) Hj1 Ha1) as (v' & Hj' & C1 & C2);
        try lia; try exact E.
      exists v'. split; [exact Hj'|]. split; intros H.
      * destruct C1 as [C11 C12]; [lia|]. split; [lia | exact C12].
      * apply C2. lia.
    + destruct Wout as [Hv1 Ha1]; [lia|].
      assert (k = 0%nat) by lia. subst k. cbn in E. injection E as <-.
      exists v1. split; [exact Hj1|]. split; [lia | auto].
Qed.

(** X17. The course of an infection in a run, with [td >= 0]: a vertex
    that is active with value 1 at a superstep [t >= 1] has value
    [1 + k] and is still active after each of the next [k <= td]
    rounds, and is dead and inactive after [td + 1] rounds, as long as
    these rounds are below the ceiling. It is thus infectious for
    exactly [td] rounds. *)
Theorem infection_lasts_td_rounds :
  forall random nsteps p i td (s s' : Engine Z) (j k : nat) (v : Vertex Z),
    0 <= td ->
    nth_error (vertices s) j = Some v ->
    active v = true ->
    value v = 1 ->
    1 <= superstep v ->
    Z.of_nat k <= td + 1 ->
    superstep v + Z.of_nat k <= nsteps ->
    rounds (EpidemicVertex_update random nsteps p i td)
           (Some epidemic_stats) k s = Ok s' ->
    exists v' : Vertex Z,
      nth_error (vertices s') j = Some v'
      /\ (Z.of_nat k <= td -> value v' = 1 + Z.of_nat k /\ active v' = true)
      /\ (Z.of_nat k = td + 1 -> value v' = -1 /\ active v' = false).
Proof.
  intros random nsteps p i td s s' j k v Htd Hj Ha Hv Hs Hk Hn E.
  destruct (infection_course random nsteps p i td k s s' j v 1 Hj Ha Hs Hn Hv)
    as (v' & Hj' & C1 & C2); try lia; try exact E.
  exists v'. split; [exact Hj'|]. split; intros H; [apply C1 | apply C2]; lia.
Qed.

Lemma infection_lasts_td_rounds_witness :
  let v := mkVertex 0 1 [1%nat] [] [] true 1 in
  let s := mkEngine [v; mkVertex 1 0 [0%nat] [] [] true 1] 0 [] in
  0 <= 2
  /\ nth_error (vertices s) 0 = Some v
  /\ active v = true /\ value v = 1 /\ 1 <= superstep v
  /\ Z.of_nat 3 <= 2 + 1
  /\ superstep v + Z.of_nat 3 <= 50
  /\ exists (s' : Engine Z) (v' : Vertex Z),
       rounds (EpidemicVertex_update (fun _ => 1 # 2) 50 (1 # 10) 1 2)
              (Some epidemic_stats) 3 s = Ok s'
       /\ nth_error (vertices s') 0 = Some v'
       /\ (Z.of_nat 3 = 2 + 1 -> value v' = -1 /\ active v' = false).
Proof.
  intros v s.
  assert (Htd : 0 <= 2) by discriminate.
  assert (Hs : 1 <= superstep v) by (cbn; lia).
  assert (Hk : Z.of_nat 3 <= 2 + 1) by (cbn; lia).
  assert (Hn : superstep v + Z.of_nat 3 <= 50) by (cbn; lia).
  split; [exact Htd|]. split; [reflexivity|]. split; [reflexivity|].
  split; [reflexivity|]. split; [exact Hs|]. split; [exact Hk|].
  split; [exact Hn|].
  assert (E : exists s', rounds (EpidemicVertex_update (fun _ => 1 # 2) 50
                                   (1 # 10) 1 2)
                                (Some epidemic_stats) 3 s = Ok s').
  { eexists. vm_compute. reflexivity. }
  destruct E as (s' & E). exists s'.
  destruct (infection_lasts_td_rounds (fun _ => 1 # 2) 50 (1 # 10) 1 2
              s s' 0%nat 3%nat v Htd eq_refl eq_refl eq_refl Hs Hk Hn E)
    as (v' & Hj' & _ & C2).
  exists v'. auto.
Defined.

(** ** An epidemic without a seed *)

Lemma nothing_sent {V : Type} (vs1 : list (Vertex V)) (ms : list Message) :
  Forall (fun u => outgoing_messages u = []) vs1 ->
  Forall (sent_by vs1) ms -> ms = [].
Proof.
  intros F S. destruct ms as [|m ms]; [reflexivity|].
  inversion S as [|? ? (u0 & m0 & In0 & Inm & _) _]; subst.
  rewrite Forall_forall in F. rewrite (F u0 In0) in Inm. contradiction.
Qed.

Lemma tally_all {V : Type} (t : Vertex V -> bool) (vs : list (Vertex V)) :
  Forall (fun v => t v = true) vs -> tally t vs = Z.of_nat (List.length vs).
Proof.
  induction 1 as [|v vs H F IH]; cbn [tally List.length]; [reflexivity|].
  rewrite H, IH. lia.
Qed.

Lemma tally_none {V : Type} (t : Vertex V -> bool) (vs : list (Vertex V)) :
  Forall (fun v => t v = false) vs -> tally t vs = 0.
Proof.
  induction 1 as [|v vs H F IH]; cbn [tally]; [reflexivity|].
  rewrite H, IH. reflexivity.
Qed.

Lemma unseeded_update random nsteps p i td (v u : Vertex Z) :
  unseeded i v \/ quiet v ->
  stepped (EpidemicVertex_update random nsteps p i td) v u ->
  value u = 0 /\ outgoing_messages u = [] /\ 0 <= superstep u
  /\ superstep u = superstep v.
Proof.
  intros H St. unfold stepped in St.
  destruct (active v) eqn:Ha.
  - destruct St as (c & c' & Eu). unfold EpidemicVertex_update in Eu.
    destruct H as [(Hs & Ho & _ & Hi)|(Hv & Hin & Ho & Hs)].
    + rewrite Hs in Eu. cbn [Z.eqb] in Eu.
      destruct (Z.ltb_spec (id v) i) as [L|_]; [lia|].
      injection Eu as <- _. cbn. rewrite Hs. auto with zarith.
    + destruct (Z.eqb_spec (superstep v) 0) as [E0|_]; [lia|].
      destruct (superstep v <? nsteps).
      * rewrite Hv, Hin in Eu. cbn in Eu. injection Eu as <- _.
        repeat split; auto; lia.
      * injection Eu as <- _. cbn. repeat split; auto; lia.
  - subst u. destruct H as [(_ & _ & Hact & _)|(Hv & _ & Ho & Hs)].
    + rewrite Ha in Hact. discriminate Hact.
    + repeat split; auto; lia.
Qed.

Lemma unseeded_round random nsteps p i td (s s' : Engine Z) :
  unseeded_invariant i s ->
  superstep_round (EpidemicVertex_update random nsteps p i td)
                  (Some epidemic_stats) s = Ok s' ->
  unseeded_invariant i s'.
Proof.
  intros [Hd Ph] E.
  assert (Pre : Forall (fun v => unseeded i v \/ quiet v) (vertices s)).
  { destruct Ph as [[_ F]|F]; (eapply Forall_impl; [|exact F]); cbn beta; auto. }
  destruct (superstep_round_inv _ _ pure_epidemic_stats s s' E)
    as (vs1 & H1 & H2 & vs3 & row & Er & Ev & Ed).
  assert (U1 : Forall (fun u => value u = 0 /\ outgoing_messages u = []
                                /\ 0 <= superstep u) vs1).
  { eapply Forall2_transport; [|exact Pre|exact H1].
    cbn beta. intros v u Hv St.
    destruct (unseeded_update random nsteps p i td v u Hv St)
      as (A & B & C & _). auto. }
  assert (O1 : Forall (fun u : Vertex Z => outgoing_messages u = []) vs1).
  { eapply Forall_impl; [|exact U1]. cbn beta. intros u (_ & H & _). exact H. }
  assert (Q' : Forall quiet (vertices s')).
  { eapply Forall2_transport; [|exact U1|exact H2].
    cbn beta. intros u v' (Hv & _ & Hs) (_ & Hval & _ & _ & Hs' & Hout & Hin).
    unfold quiet. rewrite Hval, Hs', Hout.
    repeat split; auto; [|lia]. exact (nothing_sent vs1 _ O1 Hin). }
  split; [|right; exact Q'].
  rewrite Ed. apply Forall_app. split; [exact Hd|]. constructor; [|constructor].
  rewrite epidemic_stats_eval in Er.
  destruct vs3 as [|v0 rest]; [discriminate|]. injection Er as <-.
  assert (Hvals : values (v0 :: rest) = values (vertices s')).
  { rewrite Ev. symmetry. apply values_advance. }
  unfold healthy_row, pAlive, pInfected. cbn [fst snd].
  rewrite (proportion_values (fun x => x >=? 0) _ _ Hvals).
  rewrite (proportion_values (fun x => x >? 0) _ _ Hvals).
  assert (Ne : (0 < List.length (vertices s'))%nat).
  { rewrite Ev. cbn. lia. }
  unfold proportion.
  rewrite tally_all, tally_none.
  - unfold Qeq. cbn [Qnum Qden]. rewrite Z2Pos.id by lia. split; lia.
  - eapply Forall_impl; [|exact Q']. cbn beta. intros v (Hv & _).
    now rewrite Hv.
  - eapply Forall_impl; [|exact Q']. cbn beta. intros v (Hv & _).
    now rewrite Hv.
Qed.

Lemma unseeded_rounds random nsteps p i td :
  forall (k : nat) (s s' : Engine Z),
    unseeded_invariant i s ->
    rounds (EpidemicVertex_update random nsteps p i td)
           (Some epidemic_stats) k s = Ok s' ->
    unseeded_invariant i s'.
Proof.
  induction k as [|k IH]; intros s s' I E; cbn in E.
  - now injection E as <-.
  - destruct (check_active (vertices s)); [|now injection E as <-].
    destruct (superstep_round _ _ s) as [s1|e] eqn:E1; cbn [bind] in E;
      [|discriminate].
    exact (IH s1 s' (unseeded_round _ _ _ _ _ _ _ I E1) E).
Qed.

(** X18. Without a seed there is no epidemic: in a run started from
    active vertices at superstep 0 with empty outgoing buffers, none of
    which has an id below [i], every row records everybody alive and
    nobody infected, whatever the graph, the draws and the
    probabilities. *)
Theorem no_seed_no_epidemic :
  forall random nsteps p i td (vs : list (Vertex Z)) (c k : nat)
         (s' : Engine Z),
    Forall (unseeded i) vs ->
    rounds (EpidemicVertex_update random nsteps p i td)
           (Some epidemic_stats) k (mkEngine vs c []) = Ok s' ->
    Forall healthy_row (data s').
Proof.
  intros random nsteps p i td vs c k s' U E.
  refine (proj1 (unseeded_rounds random nsteps p i td k _ s' _ E)).
  split; [constructor|]. left. auto.
Qed.

Lemma no_seed_no_epidemic_witness :
  Forall (unseeded 0) two_vertices
  /\ exists s' : Engine Z,
       rounds (EpidemicVertex_update (fun _ => 0%Q) 3 1 0 1)
              (Some epidemic_stats) 10 (mkEngine two_vertices 0 []) = Ok s'
       /\ List.length (data s') = 4%nat
       /\ Forall healthy_row (data s').
Proof.
  assert (U : Forall (unseeded 0) two_vertices).
  { unfold unseeded. constructor; [|constructor; [|constructor]]; cbn;
      repeat split; lia. }
  split; [exact U|].
  assert (E : exists s', rounds (EpidemicVertex_update (fun _ => 0%Q) 3 1 0 1)
                                (Some epidemic_stats) 10
                                (mkEngine two_vertices 0 []) = Ok s'
                         /\ List.length (data s') = 4%nat).
  { eexists. split; [vm_compute; reflexivity | reflexivity]. }
  destruct E as (s' & E & L). exists s'. split; [exact E|]. split; [exact L|].
  exact (no_seed_no_epidemic (fun _ => 0%Q) 3 1 0 1 two_vertices 0%nat 10%nat
           s' U E).
Defined.
